(** * W.O.R.M: session registry, byte container store, archive codec and
      language facades, embedded from the JavaScript sources.

    Layout of the development:
    - [js_value], [outcome]: the JavaScript values and the throw/return
      discipline the sources rely on;
    - [WormSession], [WormCore]: core/worm.js (sessions live in a heap and
      are named by references, since the registry hands out the very
      objects it stores);
    - [Base64]: the 'base64' encoding of Node's Buffer;
    - [WormContainer]: core/container/container.js and simple-container.js
      (Format A, zip, and Format B, gzip of a JSON document);
    - [JsArray], [CppFunction], [PythonContext]: the adapters.

    Every method of the sources that is declared [async] is awaited by its
    callers one call at a time; the embedding runs such calls sequentially. *)

From Stdlib Require Import ZArith NArith Lia List Ascii String.
From Stdlib.Strings Require Import Byte.
From stdpp Require Import base option list gmap strings fin_maps pretty sorting.

Local Open Scope string_scope.
Local Open Scope list_scope.
Local Open Scope Z_scope.

(** ** JavaScript values *)

(** The values that flow through sessions and facades.  Numbers are the
    integers a double represents exactly, plus [NaN]. *)
#[warnings="-register-all"]
Inductive js_value : Type :=
| VUndefined
| VNull
| VBool (b : bool)
| VNum (z : Z)
| VNaN
| VStr (s : string)
| VArr (l : list js_value).

(** A call either returns or throws an [Error] carrying a message. *)
Inductive outcome (A : Type) : Type :=
| Returned (a : A)
| Thrown (message : string).
Arguments Returned {A} a.
Arguments Thrown {A} message.

Definition returns {A} (o : outcome A) : Prop := ∃ a, o = Returned a.

(** ** core/worm.js: WormSession *)

Record HistoryRecord := {
  timestamp : Z;          (* new Date(), in milliseconds since the epoch *)
  operation : string;
  result : js_value
}.

Record WormSession := {
  session_name : string;
  context : gmap string js_value;
  history : list HistoryRecord
}.

(** [new WormSession(name, core)] *)
Definition new_WormSession (name : string) : WormSession :=
  {| session_name := name; context := ∅; history := [] |}.

(** [set(key, value)]: [this.context.set(key, value); return this] *)
Definition session_set (key : string) (value : js_value) (s : WormSession) : WormSession :=
  {| session_name := session_name s;
     context := <[key := value]> (context s);
     history := history s |}.

(** [get(key)]: [Map.prototype.get] answers [undefined] for a missing key. *)
Definition session_get (key : string) (s : WormSession) : js_value :=
  default VUndefined (context s !! key).

(** [addToHistory(operation, result)]; [now] is what [new Date()] reads. *)
Definition addToHistory (now : Z) (op : string) (res : js_value) (s : WormSession) : WormSession :=
  {| session_name := session_name s;
     context := context s;
     history := history s ++ [ {| timestamp := now; operation := op; result := res |} ] |}.

(** [cleanup()] *)
Definition cleanup (s : WormSession) : WormSession :=
  {| session_name := session_name s; context := ∅; history := [] |}.

(** The calls a holder of an open session can make on it. *)
Inductive session_call : Type :=
| CallSet (key : string) (value : js_value)
| CallGet (key : string)
| CallAddToHistory (op : string) (res : js_value).

Definition run_session_call (now : Z) (c : session_call) (s : WormSession) : WormSession :=
  match c with
  | CallSet key value => session_set key value s
  | CallGet _ => s
  | CallAddToHistory op res => addToHistory now op res s
  end.

(** A sequence of calls; the [i]-th call of the program runs when the system
    clock reads [clock i]. *)
Fixpoint run_session_calls (clock : nat → Z) (i : nat) (cs : list session_call)
    (s : WormSession) : WormSession :=
  match cs with
  | [] => s
  | c :: cs' => run_session_calls clock (S i) cs' (run_session_call (clock i) c s)
  end.

(** The records the [addToHistory] calls of a sequence ask for, in call order. *)
Fixpoint requested_records (clock : nat → Z) (i : nat) (cs : list session_call)
    : list HistoryRecord :=
  match cs with
  | [] => []
  | CallAddToHistory op res :: cs' =>
      {| timestamp := clock i; operation := op; result := res |}
        :: requested_records clock (S i) cs'
  | _ :: cs' => requested_records clock (S i) cs'
  end.

Definition is_addToHistory (c : session_call) : bool :=
  match c with CallAddToHistory _ _ => true | _ => false end.

(** A clock that is never set back. *)
Definition monotone_clock (clock : nat → Z) : Prop :=
  ∀ i j : nat, (i ≤ j)%nat → clock i ≤ clock j.

(** ** core/worm.js: WormCore *)

(** Session objects are heap allocated; the registry maps names to
    references.  The adapters, the shared container and the configuration
    record of [WormCore] take no part in session management and are left out
    of this record (the container is modelled on its own below). *)
Definition loc := positive.

Record WormCore := {
  sessions : gmap string loc;
  heap : gmap loc WormSession
}.

(** [new WormCore()] *)
Definition new_WormCore : WormCore := {| sessions := ∅; heap := ∅ |}.

(** [createSession(name = 'default')] *)
Definition createSession (name : option string) (core : WormCore) : loc * WormCore :=
  let name := default "default" name in
  let session := fresh (dom (heap core)) in
  (session,
   {| sessions := <[name := session]> (sessions core);
      heap := <[session := new_WormSession name]> (heap core) |}).

(** [getSession(name)]: [this.sessions.get(name) || null].  A session is an
    object, hence truthy; [None] is the [null] sentinel. *)
Definition getSession (name : string) (core : WormCore) : option loc :=
  sessions core !! name.

(** [closeSession(name)] *)
Definition closeSession (name : string) (core : WormCore) : WormCore :=
  match sessions core !! name with
  | Some session =>
      {| sessions := delete name (sessions core);
         heap := alter cleanup session (heap core) |}
  | None => core
  end.

(** [shutdown()]: cleans every registered session up, then clears the map. *)
Definition shutdown (core : WormCore) : WormCore :=
  {| sessions := ∅;
     heap := foldr (λ entry h, alter cleanup entry.2 h) (heap core)
                   (map_to_list (sessions core)) |}.

(** A call on a session object through a reference the caller holds. *)
Definition on_session (session : loc) (now : Z) (c : session_call) (core : WormCore) : WormCore :=
  {| sessions := sessions core;
     heap := alter (run_session_call now c) session (heap core) |}.

Inductive core_call : Type :=
| CreateSession (name : option string)
| GetSession (name : string)
| CloseSession (name : string)
| Shutdown
| OnSession (session : loc) (c : session_call).

Definition run_core_call (now : Z) (c : core_call) (core : WormCore) : WormCore :=
  match c with
  | CreateSession name => (createSession name core).2
  | GetSession _ => core
  | CloseSession name => closeSession name core
  | Shutdown => shutdown core
  | OnSession session c => on_session session now c core
  end.

Fixpoint run_core_calls (clock : nat → Z) (i : nat) (cs : list core_call)
    (core : WormCore) : WormCore :=
  match cs with
  | [] => core
  | c :: cs' => run_core_calls clock (S i) cs' (run_core_call (clock i) c core)
  end.

(** The states a program can drive the registry into. *)
Inductive reachable : WormCore → Prop :=
| reachable_new : reachable new_WormCore
| reachable_call now c core : reachable core → reachable (run_core_call now c core).

(** Every registered name resolves to a live session object carrying that
    very name. *)
Definition registry_consistent (core : WormCore) : Prop :=
  ∀ name session, sessions core !! name = Some session →
    ∃ s, heap core !! session = Some s ∧ session_name s = name.

(** No two registered sessions share a name. *)
Definition names_unique (core : WormCore) : Prop :=
  ∀ k1 k2 l1 l2 s1 s2,
    sessions core !! k1 = Some l1 → sessions core !! k2 = Some l2 →
    heap core !! l1 = Some s1 → heap core !! l2 = Some s2 →
    session_name s1 = session_name s2 → k1 = k2 ∧ l1 = l2.

(** A call that registers, unregisters or drops the name [name]. *)
Definition touches_name (name : string) (c : core_call) : bool :=
  match c with
  | CreateSession n => bool_decide (default "default" n = name)
  | CloseSession n => bool_decide (n = name)
  | Shutdown => true
  | GetSession _ | OnSession _ _ => false
  end.

(** ** Buffers and their 'base64' encoding *)

(** A [Buffer] is a sequence of bytes. *)
Abbreviation bytes := (list byte).

#[global] Instance byte_eq_decision : EqDecision byte := Byte.byte_eq_dec.

(** [buf.toString('base64')] and [Buffer.from(text, 'base64')]: the
    alphabet of RFC 4648 with [=] padding.  The decoder is the lenient one of
    Node: it stops at the first [=], skips characters outside the alphabet,
    also reads the URL-safe [-] and [_], and drops a trailing lone sextet. *)
Module Base64.
Local Open Scope N_scope.

Definition alphabet : list ascii :=
  list_ascii_of_string
    "ABCDEFGHIJKLMNOPQRSTUVWXYZabcdefghijklmnopqrstuvwxyz0123456789+/".

Definition char_of_sextet (n : N) : ascii :=
  nth (N.to_nat n) alphabet "="%char.

Fixpoint index_of (c : ascii) (l : list ascii) (i : N) : option N :=
  match l with
  | [] => None
  | x :: l' => if Ascii.eqb c x then Some i else index_of c l' (N.succ i)
  end.

Definition sextet_of_char (c : ascii) : option N :=
  if Ascii.eqb c "-" then Some 62
  else if Ascii.eqb c "_" then Some 63
  else index_of c alphabet 0.

(** Three bytes make four sextets; one or two trailing bytes make two or
    three, the last one padded with zero bits. *)
Fixpoint sextets (bs : bytes) : list N :=
  match bs with
  | [] => []
  | [a] =>
      let a := Byte.to_N a in
      [a / 4; (a mod 4) * 16]
  | [a; b] =>
      let a := Byte.to_N a in
      let b := Byte.to_N b in
      [a / 4; (a mod 4) * 16 + b / 16; (b mod 16) * 4]
  | a :: b :: c :: rest =>
      let a := Byte.to_N a in
      let b := Byte.to_N b in
      let c := Byte.to_N c in
      a / 4 :: (a mod 4) * 16 + b / 16 :: (b mod 16) * 4 + c / 64 :: c mod 64
        :: sextets rest
  end.

Definition padding (bs : bytes) : list ascii :=
  repeat "="%char ((3 - length bs mod 3) mod 3)%nat.

Definition encode (bs : bytes) : string :=
  string_of_list_ascii (map char_of_sextet (sextets bs) ++ padding bs).

Definition byte_of_N (n : N) : byte := default x00 (Byte.of_N (n mod 256)).

Fixpoint bytes_of_sextets (ss : list N) : bytes :=
  match ss with
  | s0 :: s1 :: s2 :: s3 :: rest =>
      byte_of_N (s0 * 4 + s1 / 16) :: byte_of_N ((s1 mod 16) * 16 + s2 / 4)
        :: byte_of_N ((s2 mod 4) * 64 + s3) :: bytes_of_sextets rest
  | [s0; s1; s2] =>
      [byte_of_N (s0 * 4 + s1 / 16); byte_of_N ((s1 mod 16) * 16 + s2 / 4)]
  | [s0; s1] => [byte_of_N (s0 * 4 + s1 / 16)]
  | _ => []
  end.

Fixpoint significant (cs : list ascii) : list N :=
  match cs with
  | [] => []
  | c :: cs' =>
      if Ascii.eqb c "=" then []
      else match sextet_of_char c with
           | Some n => n :: significant cs'
           | None => significant cs'
           end
  end.

Definition decode (text : string) : bytes :=
  bytes_of_sextets (significant (list_ascii_of_string text)).
End Base64.

(** ** The host: file system, process globals, clock *)

(** The file system as the store reads and saves it: a finite map from paths
    to the contents of regular files.  Directories are not recorded here; the
    calls that depend on them are the parameters of [FsModule] below. *)
Record Host := {
  process_pkg : bool;                   (* process.pkg !== undefined *)
  embedded_container : option string;   (* global.__WORM_EMBEDDED_CONTAINER__ *)
  default_container_path : string;      (* what getDefaultContainerPath() joins *)
  now_iso : string;                     (* new Date().toISOString() *)
  fs : gmap string (list byte)
}.

Definition existsSync (h : Host) (path : string) : bool :=
  bool_decide (is_Some (fs h !! path)).

Definition readFileSync (h : Host) (path : string) : outcome bytes :=
  match fs h !! path with
  | Some data => Returned data
  | None => Thrown ("ENOENT: no such file or directory, open '" +:+ path +:+ "'")
  end.

Definition writeFileSync (h : Host) (path : string) (data : bytes) : Host :=
  {| process_pkg := process_pkg h;
     embedded_container := embedded_container h;
     default_container_path := default_container_path h;
     now_iso := now_iso h;
     fs := <[path := data]> (fs h) |}.

(** ** JSON documents and the library calls of the codecs *)

(** Objects are finite maps from property names to values (the order of
    enumeration is not modelled).  Numbers: integers only. *)
#[warnings="-register-all"]
Inductive json : Type :=
| JNull
| JBool (b : bool)
| JNum (z : Z)
| JStr (s : string)
| JArr (l : list json)
| JObj (members : gmap string json).

(** What yauzl hands over for one entry of a zip file: its name and what
    [openReadStream] delivers (the buffered content, or an error). *)
Record zip_entry := {
  fileName : string;
  readStream : outcome (list byte)
}.

(** The library functions the container calls, as the sources use them.
    [JSON_stringify v] stands for [Buffer.from(JSON.stringify(v))] and
    [JSON_parse buf] for [JSON.parse(buf.toString())]; [Buffer_from_json] is
    [Buffer.from(v, 'base64')] at a value that is not a string;
    [Object_entries_other] is [Object.entries] at a truthy value that is not a
    plain object; [yauzl_fromBuffer] lists the entries yauzl reads out of a
    blob, or fails to open it; [archiver_zip] is the archive that archiver
    finalizes from the entries appended to it. *)
Record NodeRuntime := {
  gzipSync : list byte → list byte;
  gunzipSync : list byte → outcome (list byte);
  JSON_stringify : json → list byte;
  JSON_parse : list byte → outcome json;
  Buffer_from_json : json → outcome (list byte);
  Object_entries_other : json → list (string * json);
  yauzl_fromBuffer : list byte → outcome (list zip_entry);
  archiver_zip : list (string * list byte) → list byte
}.

(** ToBoolean *)
Definition json_truthy (v : json) : bool :=
  match v with
  | JNull => false
  | JBool b => b
  | JNum z => negb (z =? 0)
  | JStr s => negb (String.eqb s EmptyString)
  | JArr _ | JObj _ => true
  end.

(** [o[key] = v] on an object created by a literal, for [v] a string: the
    key [__proto__] reaches the accessor inherited from [Object.prototype],
    whose setter ignores a value that is neither an object nor [null]; no own
    property is created.  Every other key becomes (or updates) an own
    property. *)
Definition object_set (o : gmap string json) (key : string) (v : string) : gmap string json :=
  if decide (key = "__proto__") then o else <[key := JStr v]> o.

(** [container.files || {}] *)
Definition container_files (container : json) : outcome json :=
  match container with
  | JNull => Thrown "Cannot read properties of null (reading 'files')"
  | JObj members =>
      match members !! "files" with
      | Some files => Returned (if json_truthy files then files else JObj ∅)
      | None => Returned (JObj ∅)
      end
  | _ => Returned (JObj ∅)
  end.

(** [Object.entries(v)]; the properties of an object come in the order of
    the finite map, not in the order in which the document lists them. *)
Definition Object_entries (rt : NodeRuntime) (v : json) : list (string * json) :=
  match v with
  | JObj members => map_to_list members
  | _ => Object_entries_other rt v
  end.

(** [Buffer.from(encodedContent, 'base64')] *)
Definition Buffer_from_base64 (rt : NodeRuntime) (v : json) : outcome bytes :=
  match v with
  | JStr text => Returned (Base64.decode text)
  | _ => Buffer_from_json rt v
  end.

(** [/\/$/.test(name)]: the name ends with a slash. *)
Definition is_directory_name (name : string) : bool :=
  match last (list_ascii_of_string name) with
  | Some c => Ascii.eqb c "/"
  | None => false
  end.

(** ** core/container: WormContainer and WormSimpleContainer *)

(** The two classes share every method but [parseContainerData] and [save]. *)
Inductive container_class : Type :=
| WormContainer          (* Format A: zip, read with yauzl *)
| WormSimpleContainer.   (* Format B: gzip of one JSON document *)

Record container := {
  class : container_class;
  containerPath : string;
  memoryFs : gmap string (list byte);
  isLoaded : bool;
  isEmbedded : bool
}.

(** [a || b] on paths: the empty string and [null] are falsy. *)
Definition path_or (a : option string) (b : string) : string :=
  match a with
  | Some p => if String.eqb p EmptyString then b else p
  | None => b
  end.

(** [new WormContainer(containerPath = null)] *)
Definition new_container (cls : container_class) (h : Host) (path : option string) : container :=
  {| class := cls;
     containerPath := path_or path (default_container_path h);
     memoryFs := ∅;
     isLoaded := false;
     isEmbedded := process_pkg h |}.

Definition with_memoryFs (m : gmap string (list byte)) (st : container) : container :=
  {| class := class st; containerPath := containerPath st; memoryFs := m;
     isLoaded := isLoaded st; isEmbedded := isEmbedded st |}.

Definition with_isLoaded (b : bool) (st : container) : container :=
  {| class := class st; containerPath := containerPath st; memoryFs := memoryFs st;
     isLoaded := b; isEmbedded := isEmbedded st |}.

(** Methods run on the container object: they return or throw, and leave the
    object in a new state either way. *)
Definition method (A : Type) : Type := container → outcome A * container.

Definition ret {A} (a : A) : method A := λ st, (Returned a, st).

Definition throw {A} (message : string) : method A := λ st, (Thrown message, st).

Definition bind {A B} (c : method A) (k : A → method B) : method B :=
  λ st, match c st with
        | (Returned a, st') => k a st'
        | (Thrown e, st') => (Thrown e, st')
        end.

(** [try { body } catch (error) { handler }] *)
Definition try_catch {A} (body : method A) (handler : string → method A) : method A :=
  λ st, match body st with
        | (Returned a, st') => (Returned a, st')
        | (Thrown e, st') => handler e st'
        end.

Definition memoryFs_set (path : string) (content : bytes) : method unit :=
  λ st, (Returned tt, with_memoryFs (<[path := content]> (memoryFs st)) st).

Declare Scope method_scope.
Delimit Scope method_scope with method.
Notation "c ;;; k" := (bind c (λ _, k))
  (at level 100, right associativity) : method_scope.

Section Container.
Variable rt : NodeRuntime.
Variable h : Host.

Local Open Scope method_scope.

(** Format A, the [entry] events of yauzl in order: a directory entry is
    skipped; a file entry is buffered and stored; an [openReadStream]
    error rejects the promise, which keeps what was stored before.  These
    are the runs that settle; the errors yauzl raises as events, which leave
    the promise pending, are followed in [Streams] below. *)
Fixpoint read_entries (entries : list zip_entry) : method unit :=
  match entries with
  | [] => ret tt
  | entry :: rest =>
      if is_directory_name (fileName entry) then read_entries rest
      else match readStream entry with
           | Thrown err => throw err
           | Returned buffer =>
               memoryFs_set (fileName entry) buffer ;;; read_entries rest
           end
  end.

(** Format B, the loop over [Object.entries(container.files || {})]. *)
Fixpoint load_entries (entries : list (string * json)) : method unit :=
  match entries with
  | [] => ret tt
  | (filePath, encodedContent) :: rest =>
      match Buffer_from_base64 rt encodedContent with
      | Thrown err => throw err
      | Returned content => memoryFs_set filePath content ;;; load_entries rest
      end
  end.

(** [parseContainerData(data)] *)
Definition parseContainerData (data : bytes) : method unit :=
  λ st,
    match class st with
    | WormContainer =>
        match yauzl_fromBuffer rt data with
        | Thrown err => throw err st
        | Returned entries => read_entries entries st
        end
    | WormSimpleContainer =>
        try_catch
          (match gunzipSync rt data with
           | Thrown err => throw err
           | Returned decompressed =>
               match JSON_parse rt decompressed with
               | Thrown err => throw err
               | Returned document =>
                   match container_files document with
                   | Thrown err => throw err
                   | Returned files => load_entries (Object_entries rt files)
                   end
               end
           end)
          (λ _, ret tt)   (* console.warn *)
          st
    end.

(** [getEmbeddedContainerData()]: [None] is the [null] it returns when the
    global is missing or falsy. *)
Definition getEmbeddedContainerData : option bytes :=
  match embedded_container h with
  | Some text => if String.eqb text EmptyString then None else Some (Base64.decode text)
  | None => None
  end.

(** [loadEmbeddedContainer()]; a Buffer is truthy whatever its length. *)
Definition loadEmbeddedContainer : method unit :=
  match getEmbeddedContainerData with
  | Some embeddedData => parseContainerData embeddedData
  | None => ret tt
  end.

(** [loadContainerFile()] *)
Definition loadContainerFile : method unit :=
  λ st,
    if existsSync h (containerPath st) then
      match readFileSync h (containerPath st) with
      | Thrown err => throw err st
      | Returned data => parseContainerData data st
      end
    else ret tt st.

(** The branch on [this.isEmbedded] inside [load]. *)
Definition load_archive : method unit :=
  λ st, (if isEmbedded st then loadEmbeddedContainer else loadContainerFile) st.

(** [load()] *)
Definition load : method unit :=
  λ st,
    if isLoaded st then ret tt st
    else
      try_catch
        (load_archive ;;; (λ st', (Returned tt, with_isLoaded true st')))
        (λ _ st', (Returned tt, with_isLoaded true st'))   (* console.warn *)
        st.

(** The content handed to [write]: a Buffer, or something [Buffer.from]
    converts (a string, taken here as its UTF-8 bytes). *)
Inductive write_content : Type :=
| ContentBuffer (b : list byte)
| ContentString (s : string).

(** [Buffer.isBuffer(content) ? content : Buffer.from(content)] *)
Definition to_buffer (content : write_content) : bytes :=
  match content with
  | ContentBuffer b => b
  | ContentString s => list_byte_of_string s
  end.

(** [write(filePath, content)] *)
Definition write (filePath : string) (content : write_content) : method unit :=
  load ;;; memoryFs_set filePath (to_buffer content).

(** [read(filePath)]: [!content] holds only for [undefined], a Buffer
    being an object. *)
Definition read (filePath : string) : method bytes :=
  load ;;;
  (λ st, match memoryFs st !! filePath with
         | Some content => ret content st
         | None => throw ("File not found in container: " +:+ filePath) st
         end).

(** [exists(filePath)] *)
Definition exists_ (filePath : string) : method bool :=
  load ;;; (λ st, ret (bool_decide (is_Some (memoryFs st !! filePath))) st).

(** [list(prefix = '')] *)
Definition list_ (pre : string) : method (list string) :=
  load ;;;
  (λ st, let files := (map_to_list (memoryFs st)).*1 in
         ret (if String.eqb pre EmptyString then files
              else List.filter (String.prefix pre) files) st).

(** [remove(filePath)] *)
Definition remove (filePath : string) : method bool :=
  load ;;;
  (λ st, if bool_decide (is_Some (memoryFs st !! filePath))
         then (Returned true, with_memoryFs (delete filePath (memoryFs st)) st)
         else (Returned false, st)).

(** [clear()] *)
Definition clear : method unit :=
  λ st, (Returned tt, with_memoryFs ∅ st).

(** [stats()]: [fileCount] and [totalSize]. *)
Definition stats : method (nat * nat) :=
  load ;;;
  (λ st, ret (size (memoryFs st),
              map_fold (λ _ content totalSize, (totalSize + length content)%nat)
                       0%nat (memoryFs st)) st).

(** The object [save] of WormSimpleContainer builds: starting from [{}],
    one assignment [container.files[filePath] = content.toString('base64')]
    per entry of the map. *)
Definition files_object (m : gmap string (list byte)) : gmap string json :=
  map_fold (λ filePath content o, object_set o filePath (Base64.encode content)) ∅ m.

Definition container_document (created : string) (m : gmap string (list byte)) : json :=
  JObj (<["version" := JStr "1.0"]>
        (<["created" := JStr created]>
         (<["files" := JObj (files_object m)]> ∅))).

(** What [save] writes: the zip of the entries, or the gzip of the JSON
    text of the container document. *)
Definition archive_blob (st : container) : bytes :=
  match class st with
  | WormContainer => archiver_zip rt (map_to_list (memoryFs st))
  | WormSimpleContainer =>
      let json := JSON_stringify rt (container_document (now_iso h) (memoryFs st)) in
      gzipSync rt json
  end.

(** [save(outputPath = null)]; the result carries the host with the file
    written. *)
Definition save (outputPath : option string) (st : container)
    : outcome unit * container * Host :=
  match load st with
  | (Thrown err, st') => (Thrown err, st', h)
  | (Returned _, st') =>
      let targetPath := path_or outputPath (containerPath st') in
      (Returned tt, st', writeFileSync h targetPath (archive_blob st'))
  end.
End Container.

(** *** What a store finds when it loads *)

(** The blob [load] would parse: the embedded resource of a packaged
    executable, or the file at [containerPath]. *)
Definition backing_archive (h : Host) (st : container) : option bytes :=
  if isEmbedded st then getEmbeddedContainerData h else fs h !! containerPath st.


(** A readable archive that has an entry at [path]: every file entry can be
    read, and one of them is named [path]. *)
Definition archive_lists (rt : NodeRuntime) (cls : container_class) (data : bytes)
    (path : string) : Prop :=
  match cls with
  | WormContainer =>
      ∃ entries,
        yauzl_fromBuffer rt data = Returned entries ∧
        Forall (λ e, is_directory_name (fileName e) = false → returns (readStream e))
               entries ∧
        is_directory_name path = false ∧
        ∃ e, e ∈ entries ∧ fileName e = path
  | WormSimpleContainer =>
      ∃ decompressed document files,
        gunzipSync rt data = Returned decompressed ∧
        JSON_parse rt decompressed = Returned document ∧
        container_files document = Returned (JObj files) ∧
        map_Forall (λ _ v, returns (Buffer_from_base64 rt v)) files ∧
        is_Some (files !! path)
  end.

(** What [Buffer.from(v, 'base64')] stores for a value, if it returns. *)
Definition stored (rt : NodeRuntime) (v : json) : option (list byte) :=
  match Buffer_from_base64 rt v with
  | Returned content => Some content
  | Thrown _ => None
  end.

(** [st'] is the object [st] with, at most, another content. *)
Definition same_object (st st' : container) : Prop :=
  class st' = class st ∧ containerPath st' = containerPath st ∧
  isEmbedded st' = isEmbedded st ∧ isLoaded st' = isLoaded st.

(** A store of class WormSimpleContainer, file-backed, already loaded, whose
    only entry sits at the path [__proto__]. *)
Definition proto_store (path : string) (content : bytes) : container :=
  {| class := WormSimpleContainer; containerPath := path;
     memoryFs := {[ "__proto__" := content ]};
     isLoaded := true; isEmbedded := false |}.

(** *** Format A as yauzl delivers it *)

(** [parseContainerData] of WormContainer settles its promise from three
    places only: the error of the [fromBuffer] callback, the error of the
    [openReadStream] callback, and the [end] event of the zip file.  yauzl
    reports a central directory that breaks off by an [error] event of the
    zip file, and an entry body that does not inflate, or has the wrong
    length, by an [error] event of its read stream.  The source listens to
    neither: after such an event nothing calls [resolve], [reject] or
    [readEntry] any more (Node raises the event as an uncaught exception).
    [read_entries], [parseContainerData] and [load] above describe the runs
    in which every failure arrives through a callback; this module follows
    the events, and [Pending] is the promise that never settles. *)
Module Streams.

(** What a read stream emits after its [data] chunks. *)
Inductive read_stream : Type :=
| StreamEnd (buffer : bytes)     (* [end]; [buffer] is [Buffer.concat(chunks)] *)
| StreamError (err : string).    (* [error], which has no listener *)

Record entry := {
  fileName : string;
  openReadStream : outcome read_stream   (* callback(err, readStream) *)
}.

(** What [readEntry()] emits once the entries are used up. *)
Inductive zip_ending : Type :=
| ZipEnd                       (* [end] *)
| ZipError (err : string).     (* [error], which has no listener *)

(** The [entry] events that successive [readEntry()] calls emit, and the
    event that follows the last of them. *)
Record zipfile := {
  entries : list entry;
  ending : zip_ending
}.

(** An awaited call on the container: settled (resolved or rejected), or
    left pending, with the object as the call left it. *)
Inductive promise (A : Type) : Type :=
| Settled (r : outcome A) (st : container)
| Pending (st : container).
Arguments Settled {A} r st.
Arguments Pending {A} st.

(** The listeners of [parseContainerData], event by event. *)
Fixpoint read_entries (es : list entry) (ending : zip_ending) (st : container)
    : promise unit :=
  match es with
  | [] =>
      match ending with
      | ZipEnd => Settled (Returned tt) st
      | ZipError _ => Pending st
      end
  | e :: rest =>
      if is_directory_name (fileName e) then read_entries rest ending st
      else match openReadStream e with
           | Thrown err => Settled (Thrown err) st
           | Returned (StreamError _) => Pending st
           | Returned (StreamEnd buffer) =>
               read_entries rest ending
                 (with_memoryFs (<[fileName e := buffer]> (memoryFs st)) st)
           end
  end.


Section Load.
Variable fromBuffer : bytes → outcome zipfile.   (* yauzl.fromBuffer *)
Variable rt : NodeRuntime.
Variable h : Host.

(** [parseContainerData(data)]; the body of WormSimpleContainer is
    synchronous, so its promise always settles. *)
Definition parseContainerData (data : bytes) (st : container) : promise unit :=
  match class st with
  | WormContainer =>
      match fromBuffer data with
      | Thrown err => Settled (Thrown err) st
      | Returned zipfile => read_entries (entries zipfile) (ending zipfile) st
      end
  | WormSimpleContainer =>
      let '(r, st') := parseContainerData rt data st in Settled r st'
  end.

Definition loadEmbeddedContainer (st : container) : promise unit :=
  match getEmbeddedContainerData h with
  | Some embeddedData => parseContainerData embeddedData st
  | None => Settled (Returned tt) st
  end.

Definition loadContainerFile (st : container) : promise unit :=
  if existsSync h (containerPath st) then
    match readFileSync h (containerPath st) with
    | Thrown err => Settled (Thrown err) st
    | Returned data => parseContainerData data st
    end
  else Settled (Returned tt) st.

(** [load()]: both the [try] block and the [catch] block end by setting
    [isLoaded]; a pending [await] reaches neither. *)
Definition load (st : container) : promise unit :=
  if isLoaded st then Settled (Returned tt) st
  else
    match (if isEmbedded st then loadEmbeddedContainer st else loadContainerFile st) with
    | Settled _ st' => Settled (Returned tt) (with_isLoaded true st')
    | Pending st' => Pending st'
    end.
End Load.
End Streams.




(** *** Sample library behaviour, to run the model on *)

(** A codec pair that frames its payload with the two magic bytes of gzip. *)
Definition sample_gzip (payload : bytes) : bytes := x1f :: x8b :: payload.

Definition sample_gunzip (data : bytes) : outcome bytes :=
  match data with
  | x1f :: x8b :: payload => Returned payload
  | _ => Thrown "incorrect header check"
  end.

(** A zip reader that finds two entries in every blob: [a.txt], readable,
    and [b.txt], whose stream cannot be opened. *)
Definition sample_broken_zip (_ : bytes) : outcome (list zip_entry) :=
  Returned [ {| fileName := "a.txt"; readStream := Returned [x41] |};
             {| fileName := "b.txt";
                readStream := Thrown "invalid local file header signature" |} ].

(** A JSON printer and reader that know one document. *)
Definition sample_runtime (known : json) (text : bytes) : NodeRuntime :=
  {| gzipSync := sample_gzip;
     gunzipSync := sample_gunzip;
     JSON_stringify := λ _, text;
     JSON_parse := λ t, if decide (t = text) then Returned known
                        else Thrown "Unexpected token";
     Buffer_from_json := λ _, Thrown "The first argument must be of type string";
     Object_entries_other := λ _, [];
     yauzl_fromBuffer := sample_broken_zip;
     archiver_zip := λ _, [] |}.

Definition sample_host (files : gmap string (list byte)) : Host :=
  {| process_pkg := false; embedded_container := None;
     default_container_path := "container/container.worm";
     now_iso := "2024-01-01T00:00:00.000Z";
     fs := files |}.


(** A zip reader that finds two entries in every blob: [a.txt], readable,
    and [b.txt], whose stream opens and then fails to inflate. *)
Definition sample_truncated_zip (_ : bytes) : outcome Streams.zipfile :=
  Returned
    {| Streams.entries :=
         [ {| Streams.fileName := "a.txt";
              Streams.openReadStream := Returned (Streams.StreamEnd [x41]) |};
           {| Streams.fileName := "b.txt";
              Streams.openReadStream := Returned (Streams.StreamError "unexpected end of file") |} ];
       Streams.ending := Streams.ZipEnd |}.

(** ** adapters/js-adapter.js *)

(** ToString, on the values of this development. *)
Fixpoint ToString (v : js_value) : string :=
  match v with
  | VUndefined => "undefined"
  | VNull => "null"
  | VBool b => if b then "true" else "false"
  | VNum z => pretty z
  | VNaN => "NaN"
  | VStr s => s
  | VArr l =>
      String.concat ","
        (map (λ x, match x with VUndefined | VNull => EmptyString | _ => ToString x end) l)
  end.

(** [Array.prototype.join]: [undefined] and [null] elements print as empty. *)
Definition js_join (separator : string) (l : list js_value) : string :=
  String.concat separator
    (map (λ x, match x with VUndefined | VNull => EmptyString | _ => ToString x end) l).

(** ToBoolean *)
Definition js_truthy (v : js_value) : bool :=
  match v with
  | VUndefined | VNull | VNaN => false
  | VBool b => b
  | VNum z => negb (z =? 0)
  | VStr s => negb (String.eqb s EmptyString)
  | VArr _ => true
  end.

(** ToNumber on the values that are not strings or arrays; [None] is NaN. *)
Definition to_number (v : js_value) : option Z :=
  match v with
  | VNull => Some 0
  | VBool b => Some (if b then 1 else 0)
  | VNum z => Some z
  | _ => None
  end.

Definition of_number (n : option Z) : js_value :=
  match n with Some z => VNum z | None => VNaN end.

(** [a + b]: concatenation as soon as one operand is a string (or an array,
    whose primitive is a string), numeric addition otherwise.  Numbers are
    integers here and the sum is exact: it is the sum JavaScript computes as
    long as the operands and the result stay within 2^53 in absolute
    value. *)
Definition js_add (a b : js_value) : js_value :=
  match a, b with
  | VStr _, _ | VArr _, _ | _, VStr _ | _, VArr _ => VStr (ToString a +:+ ToString b)
  | _, _ =>
      match to_number a, to_number b with
      | Some x, Some y => VNum (x + y)
      | _, _ => VNaN
      end
  end.

(** The callbacks of the integration test, on numbers (a numeric string is
    not converted): [x => x % 2 === 0], [x => x * x], [(a, b) => a + b]. *)
Definition is_even (x : js_value) : js_value :=
  match to_number x with
  | Some z => VBool (Z.rem z 2 =? 0)
  | None => VBool false
  end.

Definition square (x : js_value) : js_value :=
  match to_number x with
  | Some z => VNum (z * z)
  | None => VNaN
  end.

(** [Array.prototype.reduce(callbackfn, initialValue)]: [initialValue] is
    [Some] as soon as a second argument is passed, whatever its value. *)
Definition Array_reduce (callbackfn : js_value → js_value → js_value)
    (initialValue : option js_value) (array : list js_value) : outcome js_value :=
  match initialValue with
  | Some accumulator => Returned (fold_left callbackfn array accumulator)
  | None =>
      match array with
      | [] => Thrown "Reduce of empty array with no initial value"
      | first :: rest => Returned (fold_left callbackfn rest first)
      end
  end.

(** [new JsArray(data, context)]: [Array.isArray(data) ? data : [data]] *)
Definition new_JsArray (data : js_value) : list js_value :=
  match data with
  | VArr l => l
  | v => [v]
  end.

(** [JsArray.map(func)], [JsArray.filter(func)] *)
Definition JsArray_map (func : js_value → js_value) (data : list js_value) : list js_value :=
  map func data.

Definition JsArray_filter (func : js_value → js_value) (data : list js_value) : list js_value :=
  List.filter (λ x, js_truthy (func x)) data.

(** [JsArray.reduce(func, initial)]: [return this.data.reduce(func, initial)].
    A caller that leaves [initial] out binds it to [undefined]; the inner
    call passes two arguments in every case. *)
Definition JsArray_reduce (func : js_value → js_value → js_value)
    (initial : option js_value) (data : list js_value) : outcome js_value :=
  Array_reduce func (Some (default VUndefined initial)) data.

(** [JsArray.sum()] *)
Definition JsArray_sum (data : list js_value) : outcome js_value :=
  Array_reduce js_add (Some (VNum 0)) data.

(** [JsFunction.call(...args)] *)
Definition JsFunction_call (name : string) (func : list js_value → outcome js_value)
    (args : list js_value) (now : Z) (session : WormSession)
    : outcome js_value * WormSession :=
  match func args with
  | Returned res =>
      (Returned res,
       addToHistory now ("js." +:+ name +:+ "(" +:+ js_join ", " args +:+ ")") res session)
  | Thrown message =>
      (Thrown ("JavaScript function " +:+ name +:+ " failed: " +:+ message), session)
  end.

(** ** The C++ adapter *)

(** [nativeFunc] is [None] for the placeholder a library hands out when
    ffi-napi is missing or the library did not load. *)
Record CppFunction := {
  cpp_name : string;
  cpp_signature : string;
  nativeFunc : option (list js_value → outcome js_value)
}.

(** [CppFunction.call(...args)] *)
Definition CppFunction_call (f : CppFunction) (args : list js_value) (now : Z)
    (session : WormSession) : outcome js_value * WormSession :=
  match nativeFunc f with
  | Some native =>
      match native args with
      | Returned res =>
          (Returned res,
           addToHistory now ("cpp." +:+ cpp_name f +:+ "(" +:+ js_join ", " args +:+ ")")
                        res session)
      | Thrown message =>
          (Thrown ("C++ function " +:+ cpp_name f +:+ " failed: " +:+ message), session)
      end
  | None =>
      (* console.log *)
      (Returned (VStr ("C++ " +:+ cpp_name f +:+ " result")), session)
  end.

(** ** adapters/python-adapter.js *)

Definition double_quote : string := String (ascii_of_nat 34) EmptyString.
Definition newline : string := String (ascii_of_nat 10) EmptyString.

(** The module variable [PythonShell]: [None] when python-shell is not
    installed, else what [PythonShell.runString] calls back with. *)
Definition PythonShell : Type := option (string → outcome js_value).

(** [PythonContext.execute(code)] *)
Definition PythonContext_execute (shell : PythonShell) (code : string)
    (session : WormSession) : outcome js_value * WormSession :=
  match shell with
  | None =>
      (* console.log *)
      (Returned (VArr [VStr "Simulated Python result"]), session)
  | Some runString => (runString code, session)
  end.

Record PythonFunction := {
  py_code : string;
  py_name : string
}.

(** The [argsCode] of [PythonFunction.call]: strings are quoted, other
    arguments go through [stringify], which is [JSON.stringify]. *)
Definition python_argsCode (stringify : js_value → js_value) (args : list js_value) : string :=
  js_join ", "
    (map (λ arg, match arg with
                 | VStr s => VStr (double_quote +:+ s +:+ double_quote)
                 | _ => stringify arg
                 end) args).

(** [PythonFunction.call(...args)] *)
Definition PythonFunction_call (stringify : js_value → js_value) (shell : PythonShell)
    (f : PythonFunction) (args : list js_value) (now : Z) (session : WormSession)
    : outcome js_value * WormSession :=
  let argsCode := python_argsCode stringify args in
  let fullCode :=
    newline +:+ py_code f +:+ newline +:+
    "result = " +:+ py_name f +:+ "(" +:+ argsCode +:+ ")" +:+ newline +:+
    "print(result)" +:+ newline +:+ "        " in
  match PythonContext_execute shell fullCode session with
  | (Returned res, session') =>
      (Returned res,
       addToHistory now ("python." +:+ py_name f +:+ "(" +:+ argsCode +:+ ")") res session')
  | (Thrown message, session') =>
      (Thrown ("Python function " +:+ py_name f +:+ " failed: " +:+ message), session')
  end.

(** ** core/container: the methods that reach the host file system *)

(** Node's [path] module, whose results depend on the platform. *)
Record PathModule := {
  path_basename : string → string;
  path_join : string → string → string
}.

(** [addFile(filePath, targetPath = null)] *)
Definition addFile (rt : NodeRuntime) (h : Host) (pm : PathModule)
    (filePath : string) (targetPath : option string) : method unit :=
  bind (load rt h)
    (λ _ st,
       let actualPath := path_or targetPath (path_basename pm filePath) in
       if existsSync h filePath then
         match readFileSync h filePath with
         | Returned content => memoryFs_set actualPath content st
         | Thrown err => throw err st
         end
       else throw ("File not found: " +:+ filePath) st).

(** *** Extraction to the host *)

(** [extract] and [extractAll] create directories and write files, and what
    these calls do depends on the directories of the host, which [Host] does
    not record.  The calls of Node's [fs] module are parameters here:
    [disk] is the state of the file system and [host_of] the part of it the
    rest of the program reads.  A call returns or throws, and leaves the disk
    in a state of its own either way.  [fs_mkdirSync] is
    [fs.mkdirSync(dir, { recursive: true })]. *)
Record FsModule := {
  disk : Type;
  host_of : disk → Host;
  fs_existsSync : disk → string → bool;
  fs_mkdirSync : disk → string → outcome unit * disk;
  fs_writeFileSync : disk → string → list byte → outcome unit * disk
}.

(** The lines [extract] and the loop of [extractAll] share:
    [const dir = path.dirname(targetPath);
     if (!fs.existsSync(dir)) fs.mkdirSync(dir, { recursive: true });
     fs.writeFileSync(targetPath, content)]. *)
Definition write_under (fsm : FsModule) (path_dirname : string → string)
    (targetPath : string) (content : list byte) (d : disk fsm)
    : outcome unit * disk fsm :=
  let dir := path_dirname targetPath in
  match (if fs_existsSync fsm d dir then (Returned tt, d) else fs_mkdirSync fsm d dir) with
  | (Returned _, d1) => fs_writeFileSync fsm d1 targetPath content
  | (Thrown err, d1) => (Thrown err, d1)
  end.

(** [extract(filePath, outputPath = null)] *)
Definition extract (rt : NodeRuntime) (fsm : FsModule) (path_dirname : string → string)
    (filePath : string) (outputPath : option string) (st : container) (d : disk fsm)
    : outcome unit * container * disk fsm :=
  match read rt (host_of fsm d) filePath st with
  | (Thrown err, st') => (Thrown err, st', d)
  | (Returned content, st') =>
      let targetPath := path_or outputPath filePath in
      let '(r, d') := write_under fsm path_dirname targetPath content d in
      (r, st', d')
  end.

(** The loop of [extractAll]; a call that throws ends it and keeps what was
    written before. *)
Fixpoint write_entries (fsm : FsModule) (path_dirname : string → string)
    (pm : PathModule) (outputDir : string) (entries : list (string * list byte))
    (d : disk fsm) : outcome unit * disk fsm :=
  match entries with
  | [] => (Returned tt, d)
  | (filePath, content) :: rest =>
      match write_under fsm path_dirname (path_join pm outputDir filePath) content d with
      | (Returned _, d') => write_entries fsm path_dirname pm outputDir rest d'
      | (Thrown err, d') => (Thrown err, d')
      end
  end.

(** [extractAll(outputDir = './extracted')].  The loop runs over the Map in
    the order of insertion, which the finite map of the store does not
    record: [iteration] is that enumeration of the loaded store. *)
Definition extractAll (rt : NodeRuntime) (fsm : FsModule) (path_dirname : string → string)
    (pm : PathModule) (outputDir : string)
    (iteration : gmap string (list byte) → list (string * list byte))
    (st : container) (d : disk fsm) : outcome unit * container * disk fsm :=
  match load rt (host_of fsm d) st with
  | (Thrown err, st') => (Thrown err, st', d)
  | (Returned _, st') =>
      match (if fs_existsSync fsm d outputDir then (Returned tt, d)
             else fs_mkdirSync fsm d outputDir) with
      | (Thrown err, d1) => (Thrown err, st', d1)
      | (Returned _, d1) =>
          let '(r, d2) :=
            write_entries fsm path_dirname pm outputDir (iteration (memoryFs st')) d1 in
          (r, st', d2)
      end
  end.

(** What the theorems on extraction assume of the host: a [writeFileSync]
    that returns has replaced the file at its path and no other, as
    [writeFileSync] of the host section does; [mkdirSync] creates directories
    and changes no regular file, whether it returns or throws. *)
Definition writes_one_file (fsm : FsModule) : Prop :=
  ∀ d path data d',
    fs_writeFileSync fsm d path data = (Returned tt, d') →
    host_of fsm d' = writeFileSync (host_of fsm d) path data.

Definition mkdir_keeps_files (fsm : FsModule) : Prop :=
  ∀ d path r d', fs_mkdirSync fsm d path = (r, d') → host_of fsm d' = host_of fsm d.

(** A sample disk to run extraction on: the regular files of a host and a
    set of directory names.  [mkdirSync] refuses a name taken by a file;
    [writeFileSync] refuses a directory, and a path whose parent is not a
    directory. *)
Record sample_disk := {
  disk_host : Host;
  disk_dirs : gset string
}.

Fixpoint drop_last_segment (reversed : list ascii) : list ascii :=
  match reversed with
  | [] => []
  | c :: rest => if Ascii.eqb c "/" then rest else drop_last_segment rest
  end.

(** [path.dirname] on relative paths with single slashes. *)
Definition sample_dirname (path : string) : string :=
  match drop_last_segment (rev (list_ascii_of_string path)) with
  | [] => "."
  | rest => string_of_list_ascii (rev rest)
  end.

Definition sample_fs : FsModule :=
  {| disk := sample_disk;
     host_of := disk_host;
     fs_existsSync := λ d path,
       bool_decide (is_Some (fs (disk_host d) !! path)) || bool_decide (path ∈ disk_dirs d);
     fs_mkdirSync := λ d path,
       if bool_decide (is_Some (fs (disk_host d) !! path))
       then (Thrown ("EEXIST: file already exists, mkdir '" +:+ path +:+ "'"), d)
       else (Returned tt, {| disk_host := disk_host d;
                             disk_dirs := {[ path ]} ∪ disk_dirs d |});
     fs_writeFileSync := λ d path data,
       if bool_decide (path ∈ disk_dirs d)
       then (Thrown ("EISDIR: illegal operation on a directory, open '" +:+ path +:+ "'"), d)
       else if bool_decide (sample_dirname path ∈ disk_dirs d)
       then (Returned tt, {| disk_host := writeFileSync (disk_host d) path data;
                             disk_dirs := disk_dirs d |})
       else if bool_decide (is_Some (fs (disk_host d) !! sample_dirname path))
       then (Thrown ("ENOTDIR: not a directory, open '" +:+ path +:+ "'"), d)
       else (Thrown ("ENOENT: no such file or directory, open '" +:+ path +:+ "'"), d) |}.

(** *** Text and JSON on top of [read] and [write] *)

(** The conversions between text and bytes and the JSON functions on text:
    [Buffer.from(text, encoding)], [buffer.toString(encoding)],
    [JSON.stringify(obj, null, indent)] and [JSON.parse(text)]. *)
Record TextRuntime := {
  Buffer_from_text : string → string → list byte;
  Buffer_toString : string → list byte → string;
  JSON_stringify_indent : json → nat → string;
  JSON_parse_text : string → outcome json
}.

(** [readText(filePath, encoding = 'utf8')] *)
Definition readText (rt : NodeRuntime) (tr : TextRuntime) (h : Host)
    (filePath : string) (encoding : string) : method string :=
  bind (read rt h filePath) (λ buffer, ret (Buffer_toString tr encoding buffer)).

(** [readJSON(filePath)] *)
Definition readJSON (rt : NodeRuntime) (tr : TextRuntime) (h : Host)
    (filePath : string) : method json :=
  bind (readText rt tr h filePath "utf8")
    (λ text, match JSON_parse_text tr text with
             | Returned value => ret value
             | Thrown err => throw err
             end).

(** [writeText(filePath, text, encoding = 'utf8')] *)
Definition writeText (rt : NodeRuntime) (tr : TextRuntime) (h : Host)
    (filePath : string) (text : string) (encoding : string) : method unit :=
  write rt h filePath (ContentBuffer (Buffer_from_text tr encoding text)).

(** [writeJSON(filePath, obj, indent = 2)] *)
Definition writeJSON (rt : NodeRuntime) (tr : TextRuntime) (h : Host)
    (filePath : string) (obj : json) (indent : nat) : method unit :=
  writeText rt tr h filePath (JSON_stringify_indent tr obj indent) "utf8".

(** *** A directory of the host, as [readdirSync] and [statSync] show it *)

#[warnings="-register-all"]
Inductive fs_tree : Type :=
| FsFile (content : list byte)
| FsDir (items : list (string * fs_tree)).

(** [s.replace(/\\/g, '/')] *)
Definition slashes (s : string) : string :=
  string_of_list_ascii
    (map (λ c, if Ascii.eqb c (ascii_of_nat 92) then "/"%char else c)
         (list_ascii_of_string s)).

(** [addRecursive(currentPath, currentTarget)] of [addDirectory], on the
    items of one directory; [add_node] is the body of its loop for one item
    already joined to its target path. *)
Fixpoint add_node (pm : PathModule) (targetPath : string) (node : fs_tree)
    (m : gmap string (list byte)) : gmap string (list byte) :=
  match node with
  | FsFile content => <[targetPath := content]> m
  | FsDir items =>
      (fix addRecursive (items : list (string * fs_tree)) (m : gmap string (list byte)) :=
         match items with
         | [] => m
         | (item, sub) :: rest =>
             addRecursive rest
               (add_node pm (slashes (path_join pm targetPath item)) sub m)
         end) items m
  end.

Definition addRecursive (pm : PathModule) (currentTarget : string)
    (items : list (string * fs_tree)) (m : gmap string (list byte))
    : gmap string (list byte) :=
  add_node pm currentTarget (FsDir items) m.

(** [addDirectory(dirPath, targetDir = '')]; [dir] is what the host has at
    [dirPath], and [readdirSync] throws when that is not a directory. *)
Definition addDirectory (rt : NodeRuntime) (h : Host) (pm : PathModule)
    (dirPath : string) (dir : option fs_tree) (targetDir : string) : method unit :=
  bind (load rt h)
    (λ _ st,
       match dir with
       | Some (FsDir items) =>
           (Returned tt, with_memoryFs (addRecursive pm targetDir items (memoryFs st)) st)
       | Some (FsFile _) =>
           throw ("ENOTDIR: not a directory, scandir '" +:+ dirPath +:+ "'") st
       | None =>
           throw ("ENOENT: no such file or directory, scandir '" +:+ dirPath +:+ "'") st
       end).

(** The files a walk of [addRecursive] meets, each with the key it is stored
    under, in the order of the walk. *)
Fixpoint walked_files (pm : PathModule) (targetPath : string) (node : fs_tree)
    : list (string * list byte) :=
  match node with
  | FsFile content => [(targetPath, content)]
  | FsDir items =>
      (fix walk (items : list (string * fs_tree)) :=
         match items with
         | [] => []
         | (item, sub) :: rest =>
             walked_files pm (slashes (path_join pm targetPath item)) sub ++ walk rest
         end) items
  end.

(** The key [addRecursive] builds for a file reached through the directory
    names [names] below the target prefix. *)
Definition target_of (pm : PathModule) (targetDir : string) (names : list string) : string :=
  foldl (λ target item, slashes (path_join pm target item)) targetDir names.

(** [has_file node names content]: following the names [names] down from
    [node] leads to a regular file with that content. *)
Inductive has_file : fs_tree → list string → list byte → Prop :=
| has_file_here content : has_file (FsFile content) [] content
| has_file_below items item sub names content :
    (item, sub) ∈ items → has_file sub names content →
    has_file (FsDir items) (item :: names) content.

(** ** The container manager (command line) *)



(** ** core/worm.js: what [get] reads after a sequence of calls *)

(** The value of the last [set(key, _)] of a sequence, if there is one. *)
Fixpoint last_set (key : string) (cs : list session_call) (found : option js_value)
    : option js_value :=
  match cs with
  | [] => found
  | CallSet k value :: cs' =>
      last_set key cs' (if decide (k = key) then Some value else found)
  | _ :: cs' => last_set key cs' found
  end.

(** The references the registry holds. *)
Definition registered (core : WormCore) (session : loc) : Prop :=
  ∃ name, sessions core !! name = Some session.

(** ** The C++ adapter: libraries *)

(** What [ffi.Library(path, functions)] returns: the native function bound
    to each name, if any. *)
Definition ffi_library : Type := string → option (list js_value → outcome js_value).

(** The module variable [ffi]: [None] when ffi-napi is not installed, else
    its [Library] function, which throws when the library cannot be loaded. *)
Definition Ffi : Type := option (string → list (string * string) → outcome ffi_library).

Record CppLibrary := {
  libraryPath : string;
  ffiLib : option ffi_library;
  library_functions : gmap string CppFunction
}.

(** [new CppLibrary(libraryPath, functions, context)] *)
Definition new_CppLibrary (ffi : Ffi) (path : string) (functions : list (string * string))
    : CppLibrary :=
  match ffi with
  | Some Library =>
      match Library path functions with
      | Returned lib =>
          {| libraryPath := path; ffiLib := Some lib;
             library_functions :=
               foldl (λ m entry,
                        <[entry.1 := {| cpp_name := entry.1; cpp_signature := entry.2;
                                        nativeFunc := lib entry.1 |}]> m)
                     ∅ functions |}
      | Thrown _ =>
          (* console.warn *)
          {| libraryPath := path; ffiLib := None; library_functions := ∅ |}
      end
  | None =>
      (* console.warn *)
      {| libraryPath := path; ffiLib := None; library_functions := ∅ |}
  end.

(** [CppLibrary.function(functionName, signature = 'double')] *)
Definition CppLibrary_function (lib : CppLibrary) (functionName : string)
    (signature : option string) : CppFunction * CppLibrary :=
  match library_functions lib !! functionName with
  | Some func => (func, lib)
  | None =>
      let func :=
        {| cpp_name := functionName;
           cpp_signature := default "double" signature;
           nativeFunc := match ffiLib lib with
                         | Some bound => bound functionName
                         | None => None
                         end |} in
      (func,
       {| libraryPath := libraryPath lib; ffiLib := ffiLib lib;
          library_functions := <[functionName := func]> (library_functions lib) |})
  end.

(** [CppContext.loadedLibraries] and [CppContext.library(libraryPath,
    functions = {})] *)
Definition CppContext_library (ffi : Ffi) (pm : PathModule)
    (loadedLibraries : gmap string CppLibrary) (path : string)
    (functions : list (string * string)) : CppLibrary * gmap string CppLibrary :=
  let key := path_basename pm path in
  match loadedLibraries !! key with
  | Some lib => (lib, loadedLibraries)
  | None =>
      let lib := new_CppLibrary ffi path functions in
      (lib, <[key := lib]> loadedLibraries)
  end.

(** A library none of whose functions is bound to native code. *)
Definition placeholder_library (lib : CppLibrary) : Prop :=
  ffiLib lib = None ∧
  map_Forall (λ name func, cpp_name func = name ∧ nativeFunc func = None)
             (library_functions lib).

(** ** adapters/python-adapter.js: PythonArray *)

(** [result[0]] *)
Definition first_element (v : js_value) : outcome js_value :=
  match v with
  | VArr (x :: _) => Returned x
  | VArr [] => Returned VUndefined
  | VStr (String c _) => Returned (VStr (String c EmptyString))
  | VUndefined => Thrown "Cannot read properties of undefined (reading '0')"
  | VNull => Thrown "Cannot read properties of null (reading '0')"
  | _ => Returned VUndefined
  end.

Definition is_ascii_letter (c : ascii) : bool :=
  let n := nat_of_ascii c in
  ((65 <=? n)%nat && (n <=? 90)%nat) || ((97 <=? n)%nat && (n <=? 122)%nat).

(** [parseFloat(v)]: a text with no first character, or whose first
    character is a letter other than the [I] of [Infinity], is no number;
    [numeric] reads the other texts. *)
Definition parseFloat (numeric : string → js_value) (v : js_value) : js_value :=
  match ToString v with
  | EmptyString => VNaN
  | String c rest =>
      if is_ascii_letter c && negb (Ascii.eqb c "I") then VNaN
      else numeric (String c rest)
  end.

Record PythonArray := {
  array_data : js_value;
  varName : string          (* `array_${Date.now()}` *)
}.

(** The script of [mean], [sum] and [shape]; [member] is [.mean()],
    [.sum()] or [.shape]. *)
Definition python_array_code (stringify : js_value → js_value) (a : PythonArray)
    (member : string) : string :=
  newline +:+ "import numpy as np" +:+ newline +:+
  varName a +:+ " = np.array(" +:+ ToString (stringify (array_data a)) +:+ ")" +:+ newline +:+
  "result = " +:+ varName a +:+ member +:+ newline +:+
  "print(result)" +:+ newline +:+ "        ".

(** [PythonArray.mean()] and [PythonArray.sum()], which differ by [member]. *)
Definition PythonArray_number (stringify : js_value → js_value) (numeric : string → js_value)
    (shell : PythonShell) (a : PythonArray) (member : string) (session : WormSession)
    : outcome js_value * WormSession :=
  match PythonContext_execute shell (python_array_code stringify a member) session with
  | (Returned res, session') =>
      match first_element res with
      | Returned x => (Returned (parseFloat numeric x), session')
      | Thrown err => (Thrown err, session')
      end
  | (Thrown err, session') => (Thrown err, session')
  end.

Definition PythonArray_mean stringify numeric shell a session :=
  PythonArray_number stringify numeric shell a ".mean()" session.

Definition PythonArray_sum stringify numeric shell a session :=
  PythonArray_number stringify numeric shell a ".sum()" session.

(** [PythonArray.shape()] *)
Definition PythonArray_shape (stringify : js_value → js_value) (shell : PythonShell)
    (a : PythonArray) (session : WormSession) : outcome js_value * WormSession :=
  match PythonContext_execute shell (python_array_code stringify a ".shape") session with
  | (Returned res, session') =>
      match first_element res with
      | Returned x => (Returned x, session')
      | Thrown err => (Thrown err, session')
      end
  | (Thrown err, session') => (Thrown err, session')
  end.

(** ** The Go adapter *)

Definition quoted (s : string) : string := double_quote +:+ s +:+ double_quote.

Definition standardModules : list string := ["fmt"; "strings"; "math"; "time"; "strconv"].

(** The lines [GoFunction.getImports()] joins. *)
Definition import_lines (moduleName : string) : list string :=
  ["import ("; "    " +:+ quoted "fmt"]
  ++ (if bool_decide (moduleName ∈ standardModules) && negb (String.eqb moduleName "fmt")
      then ["    " +:+ quoted moduleName] else [])
  ++ [")"].

(** [GoFunction.getImports()] *)
Definition getImports (moduleName : string) : string :=
  String.concat newline (import_lines moduleName).

(** [arg.replace(/"/g, '\\"')] *)
Fixpoint escape_quotes (s : string) : string :=
  match s with
  | EmptyString => EmptyString
  | String c rest =>
      if Ascii.eqb c (ascii_of_nat 34)
      then String (ascii_of_nat 92) (String c (escape_quotes rest))
      else String c (escape_quotes rest)
  end.

(** [GoFunction.formatArgs(args)] *)
Definition formatArgs (stringify : js_value → js_value) (args : list js_value) : string :=
  String.concat ", "
    (map (λ arg, match arg with
                 | VStr s => quoted (escape_quotes s)
                 | VNum _ | VNaN | VBool _ => ToString arg
                 | _ => quoted (ToString (stringify arg))
                 end) args).

(** [GoFunction.generateGoCode(args)] *)
Definition generateGoCode (stringify : js_value → js_value) (moduleName functionName : string)
    (args : list js_value) : string :=
  newline +:+ "package main" +:+ newline +:+ newline +:+
  getImports moduleName +:+ newline +:+ newline +:+
  "func main() {" +:+ newline +:+
  "    result := " +:+ moduleName +:+ "." +:+ functionName +:+ "("
    +:+ formatArgs stringify args +:+ ")" +:+ newline +:+
  "    fmt.Print(result)" +:+ newline +:+ "}" +:+ newline +:+ "        ".

(** [GoFunction.call(...args)]; [run] is [GoContext.run], which resolves to
    the trimmed output of [go run] or rejects. *)
Definition GoFunction_call (stringify : js_value → js_value)
    (run : string → outcome js_value) (moduleName functionName : string)
    (args : list js_value) (now : Z) (session : WormSession)
    : outcome js_value * WormSession :=
  match run (generateGoCode stringify moduleName functionName args) with
  | Returned res =>
      (Returned res,
       addToHistory now
         ("go." +:+ moduleName +:+ "." +:+ functionName +:+ "(" +:+ js_join ", " args +:+ ")")
         res session)
  | Thrown message =>
      (Thrown ("Go function " +:+ moduleName +:+ "." +:+ functionName +:+ " failed: "
               +:+ message), session)
  end.

(** ** The packaging script *)

(** [s.includes(sub)] *)
Fixpoint includes (sub s : string) : bool :=
  String.prefix sub s ||
  match s with
  | EmptyString => false
  | String _ rest => includes sub rest
  end.

(** [PackageContainer.detectPlatform(binaryName)]; [platform] is
    [process.platform]. *)
Definition detectPlatform (platform binaryName : string) : string :=
  if includes "win" binaryName then "windows"
  else if includes "linux" binaryName then "linux"
  else if includes "macos" binaryName then "macos"
  else platform.

(** ** Calls through the facades *)

(** One call of a user through a facade of a session. *)
Inductive facade_call : Type :=
| ViaJs (name : string) (func : list js_value → outcome js_value) (args : list js_value)
| ViaCpp (f : CppFunction) (args : list js_value)
| ViaPython (f : PythonFunction) (args : list js_value)
| ViaGo (moduleName functionName : string) (args : list js_value).

(** What the toolchains of the host do: [JSON.stringify], python-shell and
    [go run]. *)
Record Toolchains := {
  tool_stringify : js_value → js_value;
  tool_python : PythonShell;
  tool_go : string → outcome js_value
}.

Definition run_facade_call (tc : Toolchains) (now : Z) (c : facade_call)
    (session : WormSession) : outcome js_value * WormSession :=
  match c with
  | ViaJs name func args => JsFunction_call name func args now session
  | ViaCpp f args => CppFunction_call f args now session
  | ViaPython f args => PythonFunction_call (tool_stringify tc) (tool_python tc) f args now session
  | ViaGo moduleName functionName args =>
      GoFunction_call (tool_stringify tc) (tool_go tc) moduleName functionName args now session
  end.

(** A placeholder C++ function, the one call that returns without a record. *)
Definition is_placeholder (c : facade_call) : bool :=
  match c with
  | ViaCpp f _ => match nativeFunc f with None => true | Some _ => false end
  | _ => false
  end.

(** The calls of a sequence run one after the other on the session, whether
    they return or throw; the count is that of the calls that returned
    through something else than a placeholder. *)
Fixpoint run_facade_calls (tc : Toolchains) (clock : nat → Z) (i : nat)
    (cs : list facade_call) (session : WormSession) : nat * WormSession :=
  match cs with
  | [] => (0%nat, session)
  | c :: cs' =>
      let '(r, session') := run_facade_call tc (clock i) c session in
      let '(n, session'') := run_facade_calls tc clock (S i) cs' session' in
      (match r with
       | Returned _ => if is_placeholder c then n else S n
       | Thrown _ => n
       end, session'')
  end.

(* ===================================================================== *)
(** * Properties *)
(* ===================================================================== *)

(** ** Sessions *)

Section SessionHistory.
Variable clock : nat → Z.

Lemma run_session_calls_history cs : ∀ i s,
  history (run_session_calls clock i cs s) = history s ++ requested_records clock i cs.
Proof.
  induction cs as [|c cs IH]; intros i s; simpl.
  - by rewrite app_nil_r.
  - rewrite IH. destruct c; simpl; [done | done |].
    by rewrite <- app_assoc.
Qed.

Lemma run_session_calls_name cs : ∀ i s,
  session_name (run_session_calls clock i cs s) = session_name s.
Proof.
  induction cs as [|c cs IH]; intros i s; simpl; [done |].
  rewrite IH. by destruct c.
Qed.

Lemma requested_records_length cs : ∀ i,
  length (requested_records clock i cs) = length (List.filter is_addToHistory cs).
Proof.
  induction cs as [|c cs IH]; intros i; simpl; [done |].
  destruct c; simpl; by rewrite IH.
Qed.

Hypothesis clock_monotone : monotone_clock clock.

Lemma requested_records_after cs : ∀ i,
  Forall (λ r, clock i ≤ timestamp r) (requested_records clock i cs).
Proof.
  induction cs as [|c cs IH]; intros i; simpl; [constructor |].
  assert (Forall (λ r, clock i ≤ timestamp r) (requested_records clock (S i) cs)) as Hlater.
  { eapply Forall_impl; [apply IH |]. simpl. intros r Hr.
    etrans; [apply (clock_monotone i (S i)); lia | exact Hr]. }
  destruct c; simpl; [done | done |].
  constructor; [simpl; lia | done].
Qed.

Lemma requested_records_sorted cs : ∀ i,
  StronglySorted Z.le (map timestamp (requested_records clock i cs)).
Proof.
  induction cs as [|c cs IH]; intros i; simpl; [constructor |].
  destruct c; simpl; [apply IH | apply IH |].
  constructor; [apply IH |].
  apply Forall_map. eapply Forall_impl; [apply requested_records_after |].
  simpl. intros r Hr. etrans; [apply (clock_monotone i (S i)); lia | exact Hr].
Qed.
End SessionHistory.

(** C5. On a session just created, after any sequence of calls of which N
    are [addToHistory] calls, the history holds exactly the N requested
    records, in call order, each with the label and result of its call and
    the clock reading of that moment; nothing is dropped.  When the clock is
    never set back the timestamps are non-decreasing. *)
Theorem history_is_the_call_log (name : string) (clock : nat → Z) (cs : list session_call) :
  let s := run_session_calls clock 0 cs (new_WormSession name) in
  history s = requested_records clock 0 cs ∧
  length (history s) = length (List.filter is_addToHistory cs) ∧
  (monotone_clock clock → StronglySorted Z.le (map timestamp (history s))).
Proof.
  simpl. rewrite run_session_calls_history. simpl.
  split; [done |]. split; [apply requested_records_length |].
  intros Hclock. by apply requested_records_sorted.
Qed.

Lemma history_is_the_call_log_witness :
  let clock := λ i : nat, 1000 + Z.of_nat i in
  let cs := [CallAddToHistory "js.double(5)" (VNum 10); CallSet "k" VNull;
             CallAddToHistory "cpp.math.sqrt(16)" (VNum 4)] in
  monotone_clock clock ∧
  map timestamp (history (run_session_calls clock 0 cs (new_WormSession "test"))) = [1000; 1002] ∧
  StronglySorted Z.le
    (map timestamp (history (run_session_calls clock 0 cs (new_WormSession "test")))).
Proof.
  simpl. split; [intros i j Hij; simpl; lia |]. split; [reflexivity |].
  apply (history_is_the_call_log "test" (λ i : nat, 1000 + Z.of_nat i)
           [CallAddToHistory "js.double(5)" (VNum 10); CallSet "k" VNull;
            CallAddToHistory "cpp.math.sqrt(16)" (VNum 4)]).
  intros i j Hij; simpl; lia.
Defined.

(** C5, as stated, fails on the timestamps: they are readings of the system
    clock, which nothing in [addToHistory] compares with the previous
    record.  Two calls between which the clock is set back by one unit are
    recorded in call order, with decreasing timestamps. *)
Lemma history_timestamps_follow_the_clock :
  let clock := λ i : nat, 10 - Z.of_nat i in
  let cs := [CallAddToHistory "js.double(5)" (VNum 10);
             CallAddToHistory "js.double(6)" (VNum 12)] in
  let s := run_session_calls clock 0 cs (new_WormSession "test") in
  map operation (history s) = ["js.double(5)"; "js.double(6)"] ∧
  map timestamp (history s) = [10; 9] ∧
  ¬ StronglySorted Z.le (map timestamp (history s)).
Proof.
  simpl. split; [reflexivity |]. split; [reflexivity |].
  intros Hsorted. apply StronglySorted_inv in Hsorted as [_ Hle].
  apply Forall_inv in Hle. lia.
Qed.

(** ** Registry *)

Lemma run_core_call_untouched name now c core :
  touches_name name c = false →
  sessions (run_core_call now c core) !! name = sessions core !! name.
Proof.
  destruct c as [n|n|n| |l c]; simpl; intros Hc; try done.
  - apply bool_decide_eq_false in Hc. by rewrite lookup_insert_ne.
  - apply bool_decide_eq_false in Hc. unfold closeSession.
    destruct (sessions core !! n); simpl; [by rewrite lookup_delete_ne | done].
Qed.

Lemma run_core_calls_untouched name clock cs : ∀ i core,
  Forall (λ c, touches_name name c = false) cs →
  sessions (run_core_calls clock i cs core) !! name = sessions core !! name.
Proof.
  induction cs as [|c cs IH]; intros i core Hcs; simpl; [done |].
  inversion Hcs; subst. rewrite IH by done. by apply run_core_call_untouched.
Qed.

(** C6. [getSession] after [createSession] answers the reference
    [createSession] returned, whatever calls on other names or on session
    objects come in between; after [closeSession] or [shutdown] the name
    resolves to the [null] sentinel; [closeSession] of an unregistered name
    changes nothing. *)
Theorem registry_lookup_and_closure :
  (∀ name core clock i cs,
     Forall (λ c, touches_name (default "default" name) c = false) cs →
     getSession (default "default" name)
                (run_core_calls clock i cs (createSession name core).2)
       = Some (createSession name core).1) ∧
  (∀ name core, getSession name (closeSession name core) = None) ∧
  (∀ name core, getSession name (shutdown core) = None) ∧
  (∀ name core, getSession name core = None → closeSession name core = core).
Proof.
  split; [| split; [| split]].
  - intros name core clock i cs Hcs. unfold getSession.
    rewrite run_core_calls_untouched by done. simpl. apply lookup_insert_eq.
  - intros name core. unfold getSession, closeSession.
    destruct (sessions core !! name) eqn:E; simpl; [apply lookup_delete_eq | done].
  - intros name core. unfold getSession, shutdown. simpl. apply lookup_empty.
  - intros name core. unfold getSession, closeSession. by intros ->.
Qed.

Lemma registry_lookup_and_closure_witness :
  let cs := [CreateSession (Some "other"); OnSession 1%positive (CallSet "k" (VNum 1));
             CloseSession "other"; GetSession "s"] in
  Forall (λ c, touches_name "s" c = false) cs ∧
  getSession "s" (run_core_calls (λ _, 0) 0 cs (createSession (Some "s") new_WormCore).2)
    = Some (createSession (Some "s") new_WormCore).1.
Proof.
  split.
  - repeat constructor.
  - apply (proj1 registry_lookup_and_closure (Some "s") new_WormCore (λ _, 0) 0%nat).
    repeat constructor.
Defined.

Lemma cleanup_name s : session_name (cleanup s) = session_name s.
Proof. done. Qed.

Lemma run_session_call_name now c s : session_name (run_session_call now c s) = session_name s.
Proof. by destruct c. Qed.

Lemma alter_keeps_name (f : WormSession → WormSession) l l' (h : gmap loc WormSession) s :
  (∀ x, session_name (f x) = session_name x) →
  h !! l' = Some s →
  ∃ s', alter f l h !! l' = Some s' ∧ session_name s' = session_name s.
Proof.
  intros Hf Hs. rewrite lookup_alter. case_decide; subst.
  - rewrite Hs. simpl. eauto.
  - eauto.
Qed.

Lemma reachable_consistent core : reachable core → registry_consistent core.
Proof.
  induction 1 as [|now c core Hreach IH]; intros name session Hname.
  - simpl in Hname. by rewrite lookup_empty in Hname.
  - destruct c as [n|n|n| |l c]; simpl in *.
    + destruct (decide (default "default" n = name)) as [<-|Hne].
      * rewrite lookup_insert_eq in Hname. injection Hname as <-.
        rewrite lookup_insert_eq. by eexists.
      * rewrite lookup_insert_ne in Hname by done.
        destruct (IH _ _ Hname) as (s & Hs & Hn).
        exists s. split; [|done]. rewrite lookup_insert_ne; [done |].
        intros <-. apply (is_fresh (dom (heap core))).
        apply elem_of_dom. eauto.
    + by apply IH.
    + unfold closeSession in *. destruct (sessions core !! n) as [l|] eqn:E; simpl in *.
      * destruct (decide (n = name)) as [->|Hne];
          [by rewrite lookup_delete_eq in Hname |].
        rewrite lookup_delete_ne in Hname by done.
        destruct (IH _ _ Hname) as (s & Hs & Hn).
        destruct (alter_keeps_name cleanup l session _ s cleanup_name Hs) as (s' & Hs' & Hn').
        exists s'. split; [done | congruence].
      * by apply IH.
    + by rewrite lookup_empty in Hname.
    + destruct (IH _ _ Hname) as (s & Hs & Hn).
      destruct (alter_keeps_name (run_session_call now c) l session _ s
                  (run_session_call_name now c) Hs) as (s' & Hs' & Hn').
      exists s'. split; [done | congruence].
Qed.

Lemma consistent_names_unique core : registry_consistent core → names_unique core.
Proof.
  intros Hc k1 k2 l1 l2 s1 s2 H1 H2 Hs1 Hs2 Hn.
  destruct (Hc _ _ H1) as (s1' & Hs1' & Hn1).
  destruct (Hc _ _ H2) as (s2' & Hs2' & Hn2).
  assert (k1 = k2) as -> by congruence.
  split; [done | congruence].
Qed.

(** C7. In every state the registry can reach, no two registered sessions
    share a name.  [createSession] under a registered name allocates a new
    session object, distinct from the registered one, with empty context and
    empty history, and binds the name to it; the displaced object is not
    cleaned up: it stays in the heap exactly as it was, and no name of the
    registry resolves to it any more. *)
Theorem createSession_replaces_without_cleanup :
  (∀ core, reachable core → names_unique core) ∧
  (∀ core name old,
     reachable core →
     sessions core !! default "default" name = Some old →
     let session := (createSession name core).1 in
     let core' := (createSession name core).2 in
     session ≠ old ∧
     sessions core' !! default "default" name = Some session ∧
     (∃ s, heap core' !! session = Some s ∧
           session_name s = default "default" name ∧ context s = ∅ ∧ history s = []) ∧
     is_Some (heap core !! old) ∧
     heap core' !! old = heap core !! old ∧
     (∀ k, sessions core' !! k ≠ Some old) ∧
     names_unique core').
Proof.
  split.
  - intros core Hreach. by apply consistent_names_unique, reachable_consistent.
  - intros core name old Hreach Hold. simpl.
    destruct (reachable_consistent _ Hreach _ _ Hold) as (s & Hs & Hn).
    assert (fresh (dom (heap core)) ≠ old) as Hfresh.
    { intros <-. apply (is_fresh (dom (heap core))). apply elem_of_dom. eauto. }
    split; [| split; [| split; [| split; [| split; [| split]]]]].
    + done.
    + apply lookup_insert_eq.
    + eexists. split; [apply lookup_insert_eq | done].
    + eauto.
    + by rewrite lookup_insert_ne.
    + intros k Hk. destruct (decide (default "default" name = k)) as [<-|Hne].
      * rewrite lookup_insert_eq in Hk. congruence.
      * rewrite lookup_insert_ne in Hk by done.
        destruct (reachable_consistent _ Hreach _ _ Hk) as (s' & Hs' & Hn').
        congruence.
    + apply consistent_names_unique, reachable_consistent.
      apply (reachable_call 0 (CreateSession name) core Hreach).
Qed.

Lemma createSession_replaces_without_cleanup_witness :
  let core := on_session 1%positive 7 (CallAddToHistory "op" (VNum 1))
                (on_session 1%positive 5 (CallSet "k" (VStr "v"))
                   (createSession (Some "s") new_WormCore).2) in
  reachable core ∧
  sessions core !! "s" = Some 1%positive ∧
  (createSession (Some "s") core).1 ≠ 1%positive ∧
  heap (createSession (Some "s") core).2 !! 1%positive = heap core !! 1%positive.
Proof.
  simpl.
  assert (reachable (on_session 1%positive 7 (CallAddToHistory "op" (VNum 1))
                (on_session 1%positive 5 (CallSet "k" (VStr "v"))
                   (createSession (Some "s") new_WormCore).2))) as Hreach.
  { apply (reachable_call 7 (OnSession 1%positive (CallAddToHistory "op" (VNum 1)))).
    apply (reachable_call 5 (OnSession 1%positive (CallSet "k" (VStr "v")))).
    apply (reachable_call 0 (CreateSession (Some "s"))). constructor. }
  split; [exact Hreach |]. split; [reflexivity |].
  pose proof (proj2 createSession_replaces_without_cleanup _ (Some "s") 1%positive
                Hreach eq_refl) as H.
  simpl in H. destruct H as (Hne & _ & _ & _ & Hold & _ & _).
  split; [exact Hne | exact Hold].
Defined.

(** ** Base64 *)

Module Base64Facts.
Import Base64.
Local Open Scope N_scope.

Local Ltac Zify.zify_post_hook ::= Z.to_euclidean_division_equations.

(** Induction over a buffer three bytes at a time, as the encoder reads it. *)
Lemma triples_ind {A} (P : list A → Prop) :
  P [] → (∀ a, P [a]) → (∀ a b, P [a; b]) →
  (∀ a b c rest, P rest → P (a :: b :: c :: rest)) →
  ∀ l, P l.
Proof.
  intros H0 H1 H2 H3. fix IH 1. intros [|a [|b [|c rest]]].
  - exact H0.
  - apply H1.
  - apply H2.
  - apply H3, IH.
Qed.

Lemma alphabet_table :
  forallb (λ n, match sextet_of_char (char_of_sextet n) with
                | Some m => N.eqb m n
                | None => false
                end && negb (Ascii.eqb (char_of_sextet n) "="))
          (map N.of_nat (seq 0 64)) = true.
Proof. vm_compute. reflexivity. Qed.

Lemma sextet_of_char_of_sextet n :
  n < 64 →
  sextet_of_char (char_of_sextet n) = Some n ∧ Ascii.eqb (char_of_sextet n) "=" = false.
Proof.
  intros Hn.
  pose proof (proj1 (forallb_forall _ _) alphabet_table n) as H.
  lapply H.
  - intros Hb. apply andb_prop in Hb as [H1 H2].
    destruct (sextet_of_char (char_of_sextet n)) as [m|]; [|done].
    apply N.eqb_eq in H1 as ->. split; [done |].
    by destruct (Ascii.eqb (char_of_sextet n) "=").
  - apply in_map_iff. exists (N.to_nat n). split; [lia |].
    apply in_seq. lia.
Qed.

Lemma sextets_bounded bs : Forall (λ n, n < 64) (sextets bs).
Proof.
  induction bs as [|a|a b|a b c rest IH] using triples_ind; simpl.
  - constructor.
  - pose proof (to_N_bounded a).
    repeat (constructor; [lia |]). constructor.
  - pose proof (to_N_bounded a). pose proof (to_N_bounded b).
    repeat (constructor; [lia |]). constructor.
  - pose proof (to_N_bounded a). pose proof (to_N_bounded b).
    pose proof (to_N_bounded c).
    repeat (constructor; [lia |]). exact IH.
Qed.

Lemma significant_padding k : significant (repeat "="%char k) = [].
Proof. by destruct k. Qed.

Lemma significant_encoded ss k :
  Forall (λ n, n < 64) ss →
  significant (map char_of_sextet ss ++ repeat "="%char k) = ss.
Proof.
  induction 1 as [|n ss Hn _ IH]; simpl.
  - apply significant_padding.
  - destruct (sextet_of_char_of_sextet n Hn) as [-> ->]. by rewrite IH.
Qed.

Lemma byte_of_to_N (x : byte) n : n = to_N x → byte_of_N n = x.
Proof.
  intros ->. unfold byte_of_N. pose proof (to_N_bounded x).
  rewrite N.mod_small by lia. by rewrite of_to_N.
Qed.

Lemma bytes_of_sextets_of_bytes bs : bytes_of_sextets (sextets bs) = bs.
Proof.
  induction bs as [|a|a b|a b c rest IH] using triples_ind; simpl.
  - done.
  - pose proof (to_N_bounded a). f_equal. apply byte_of_to_N. lia.
  - pose proof (to_N_bounded a). pose proof (to_N_bounded b).
    f_equal; [apply byte_of_to_N; lia |].
    f_equal. apply byte_of_to_N. lia.
  - pose proof (to_N_bounded a). pose proof (to_N_bounded b).
    pose proof (to_N_bounded c).
    rewrite IH.
    f_equal; [apply byte_of_to_N; lia |].
    f_equal; [apply byte_of_to_N; lia |].
    f_equal. apply byte_of_to_N. lia.
Qed.

(** Decoding what the encoder printed gives the bytes back, whatever they
    are (null bytes included) and however many. *)
Lemma decode_encode bs : decode (encode bs) = bs.
Proof.
  unfold decode, encode, padding.
  rewrite list_ascii_of_string_of_list_ascii.
  rewrite significant_encoded by apply sextets_bounded.
  apply bytes_of_sextets_of_bytes.
Qed.

End Base64Facts.

(** ** Container store *)

Section ContainerFacts.
Variable rt : NodeRuntime.
Variable h : Host.

Lemma same_object_refl st : same_object st st.
Proof. by repeat split. Qed.

Lemma same_object_trans st1 st2 st3 :
  same_object st1 st2 → same_object st2 st3 → same_object st1 st3.
Proof. unfold same_object. intros (?&?&?&?) (?&?&?&?). repeat split; congruence. Qed.

Lemma same_object_with_memoryFs m st : same_object st (with_memoryFs m st).
Proof. by repeat split. Qed.

Lemma read_entries_same_object entries : ∀ st,
  same_object st (read_entries entries st).2.
Proof.
  induction entries as [|e entries IH]; intros st; simpl; [apply same_object_refl |].
  destruct (is_directory_name (fileName e)); [apply IH |].
  destruct (readStream e); simpl; [| apply same_object_refl].
  eapply same_object_trans; [apply same_object_with_memoryFs | apply IH].
Qed.

Lemma load_entries_same_object entries : ∀ st,
  same_object st (load_entries rt entries st).2.
Proof.
  induction entries as [|[k v] entries IH]; intros st; simpl; [apply same_object_refl |].
  destruct (Buffer_from_base64 rt v); simpl; [| apply same_object_refl].
  eapply same_object_trans; [apply same_object_with_memoryFs | apply IH].
Qed.

Lemma parseContainerData_same_object data st :
  same_object st (parseContainerData rt data st).2.
Proof.
  unfold parseContainerData. destruct (class st).
  - destruct (yauzl_fromBuffer rt data); simpl;
      [apply read_entries_same_object | apply same_object_refl].
  - unfold try_catch.
    destruct (gunzipSync rt data) as [d|]; simpl; [| apply same_object_refl].
    destruct (JSON_parse rt d) as [doc|]; simpl; [| apply same_object_refl].
    destruct (container_files doc) as [files|]; simpl; [| apply same_object_refl].
    pose proof (load_entries_same_object (Object_entries rt files) st) as H.
    by destruct (load_entries rt (Object_entries rt files) st) as [[[]|] st'].
Qed.

Lemma load_archive_same_object st : same_object st (load_archive rt h st).2.
Proof.
  unfold load_archive, loadEmbeddedContainer, loadContainerFile.
  destruct (isEmbedded st).
  - destruct (getEmbeddedContainerData h);
      [apply parseContainerData_same_object | apply same_object_refl].
  - destruct (existsSync h (containerPath st)); [| apply same_object_refl].
    destruct (readFileSync h (containerPath st));
      [apply parseContainerData_same_object | apply same_object_refl].
Qed.

Lemma load_loaded st : isLoaded st = true → load rt h st = (Returned tt, st).
Proof. unfold load. by intros ->. Qed.

Lemma load_not_loaded st :
  isLoaded st = false →
  load rt h st = (Returned tt, with_isLoaded true (load_archive rt h st).2).
Proof.
  unfold load, try_catch, bind. intros ->.
  by destruct (load_archive rt h st) as [[[]|] st'].
Qed.

(** [load] always returns, and leaves the store loaded. *)
Lemma load_returns st :
  ∃ st', load rt h st = (Returned tt, st') ∧ isLoaded st' = true ∧
         class st' = class st ∧ containerPath st' = containerPath st ∧
         isEmbedded st' = isEmbedded st.
Proof.
  destruct (isLoaded st) eqn:E.
  - exists st. by rewrite load_loaded.
  - rewrite load_not_loaded by done. eexists. split; [done |].
    destruct (load_archive_same_object st) as (?&?&?&?). by repeat split.
Qed.




Lemma load_archive_parses data st :
  backing_archive h st = Some data →
  load_archive rt h st = parseContainerData rt data st.
Proof.
  unfold backing_archive, load_archive, loadEmbeddedContainer, loadContainerFile,
    existsSync, readFileSync.
  destruct (isEmbedded st).
  - by intros ->.
  - intros ->. by rewrite bool_decide_eq_true_2 by eauto.
Qed.

End ContainerFacts.

(** C1. [write(p, content)] then [read(p)] returns the bytes written,
    whatever they are (none, or any binary content) and whether or not [p]
    was present before; the read does not even look at the host any more. *)
Theorem write_then_read (rt : NodeRuntime) (h h' : Host) (st : container)
    (filePath : string) (b : list byte) :
  ∃ st1, write rt h filePath (ContentBuffer b) st = (Returned tt, st1) ∧
         read rt h' filePath st1 = (Returned b, st1).
Proof.
  destruct (load_returns rt h st) as (st0 & Hload & Hloaded & _).
  unfold write, bind. rewrite Hload. simpl. eexists. split; [done |].
  unfold read, bind. rewrite load_loaded by done. simpl.
  by rewrite lookup_insert_eq.
Qed.

(** C8. On the store as its archive populates it: [remove(p)] of a present
    path returns [true], deletes exactly that entry, and [exists(p)] is
    [false] afterwards; [remove(p)] of an absent path returns [false] and
    leaves the store as [load] left it (as it was, when already loaded). *)
Theorem remove_then_exists (rt : NodeRuntime) (h : Host) (st : container) (filePath : string) :
  let st0 := (load rt h st).2 in
  (isLoaded st = true → st0 = st) ∧
  (is_Some (memoryFs st0 !! filePath) →
     ∃ st1, remove rt h filePath st = (Returned true, st1) ∧
            memoryFs st1 = delete filePath (memoryFs st0) ∧
            exists_ rt h filePath st1 = (Returned false, st1)) ∧
  (memoryFs st0 !! filePath = None →
     remove rt h filePath st = (Returned false, st0)).
Proof.
  simpl. destruct (load_returns rt h st) as (st0 & Hload & Hloaded & _).
  rewrite Hload. simpl. split; [| split].
  - intros Hst. rewrite load_loaded in Hload by done. congruence.
  - intros Hin. unfold remove, bind. rewrite Hload. simpl.
    rewrite bool_decide_eq_true_2 by done.
    eexists. split; [done |]. split; [done |].
    unfold exists_, bind. rewrite load_loaded by done. simpl.
    rewrite lookup_delete_eq. rewrite bool_decide_eq_false_2; [done |].
    by intros [? ?].
  - intros Hout. unfold remove, bind. rewrite Hload. simpl.
    rewrite bool_decide_eq_false_2; [done |]. rewrite Hout. by intros [? ?].
Qed.

Lemma remove_then_exists_witness :
  let rt := sample_runtime JNull [] in
  let h := sample_host ∅ in
  let st := {| class := WormContainer; containerPath := "c.worm";
               memoryFs := {[ "a.txt" := [x00; x41] ]};
               isLoaded := true; isEmbedded := false |} in
  is_Some (memoryFs (load rt h st).2 !! "a.txt") ∧
  memoryFs (load rt h st).2 !! "b.txt" = None ∧
  (∃ st1, remove rt h "a.txt" st = (Returned true, st1) ∧
          exists_ rt h "a.txt" st1 = (Returned false, st1)) ∧
  remove rt h "b.txt" st = (Returned false, st).
Proof.
  simpl.
  pose proof (remove_then_exists (sample_runtime JNull []) (sample_host ∅)
    {| class := WormContainer; containerPath := "c.worm";
       memoryFs := {[ "a.txt" := [x00; x41] ]};
       isLoaded := true; isEmbedded := false |}) as H.
  split; [by eexists |]. split; [reflexivity |]. split.
  - destruct (H "a.txt") as (_ & Hin & _).
    destruct Hin as (st1 & ? & _ & ?); [by eexists |]. by exists st1.
  - destruct (H "b.txt") as (_ & _ & Hout). by apply Hout.
Defined.

(** *** Loading, event by event *)

Section StreamFacts.
Variable fromBuffer : bytes → outcome Streams.zipfile.
Variable rt : NodeRuntime.
Variable h : Host.










End StreamFacts.



(** The sample archive whose second entry fails to inflate: [load] stays
    pending, with the first entry stored and [isLoaded] still [false]. *)
Example load_pending_sample :
  let h := sample_host {[ "c.worm" := [x50; x4b] ]} in
  Streams.load sample_truncated_zip (sample_runtime JNull []) h
               (new_container WormContainer h (Some "c.worm"))
  = Streams.Pending {| class := WormContainer; containerPath := "c.worm";
                       memoryFs := {[ "a.txt" := [x41] ]};
                       isLoaded := false; isEmbedded := false |}.
Proof. reflexivity. Qed.


(** ** Reading archives *)

Section ArchiveFacts.
Variable rt : NodeRuntime.

Lemma read_entries_lists entries : ∀ st,
  Forall (λ e, is_directory_name (fileName e) = false → returns (readStream e)) entries →
  ∃ st', read_entries entries st = (Returned tt, st') ∧
         (∀ k, is_Some (memoryFs st !! k) → is_Some (memoryFs st' !! k)) ∧
         (∀ e, e ∈ entries → is_directory_name (fileName e) = false →
               is_Some (memoryFs st' !! fileName e)).
Proof.
  induction entries as [|e entries IH]; intros st Hall; simpl.
  - exists st. split; [done |]. split; [done |]. intros e He. by apply elem_of_nil in He.
  - inversion Hall as [|? ? He Hrest]; subst.
    destruct (is_directory_name (fileName e)) eqn:Hdir.
    + destruct (IH st Hrest) as (st' & Hrun & Hkeep & Hin).
      exists st'. split; [done |]. split; [done |].
      intros e' He' Hfile. apply elem_of_cons in He' as [-> | He']; [congruence |].
      by apply Hin.
    + destruct (He eq_refl) as [buffer Hbuffer]. rewrite Hbuffer.
      unfold bind. simpl.
      destruct (IH (with_memoryFs (<[fileName e := buffer]> (memoryFs st)) st) Hrest)
        as (st' & Hrun & Hkeep & Hin).
      exists st'. split; [done |]. split.
      * intros k Hk. apply Hkeep. simpl.
        destruct (decide (fileName e = k)) as [<-|Hne];
          [rewrite lookup_insert_eq; eauto | by rewrite lookup_insert_ne].
      * intros e' He' Hfile. apply elem_of_cons in He' as [-> | He'].
        -- apply Hkeep. simpl. rewrite lookup_insert_eq. eauto.
        -- by apply Hin.
Qed.

Lemma load_entries_lookup entries : ∀ st,
  NoDup entries.*1 →
  Forall (λ kv, returns (Buffer_from_base64 rt kv.2)) entries →
  ∃ st', load_entries rt entries st = (Returned tt, st') ∧
         ∀ k, memoryFs st' !! k =
              match (list_to_map entries : gmap string json) !! k with
              | Some v => stored rt v
              | None => memoryFs st !! k
              end.
Proof.
  induction entries as [|[k0 v0] entries IH]; intros st Hnodup Hall; simpl.
  - exists st. split; [done |]. intros k. by rewrite lookup_empty.
  - inversion Hall as [|? ? [content Hcontent] Hrest]; subst.
    simpl in Hcontent. rewrite Hcontent. unfold bind. simpl.
    apply NoDup_cons in Hnodup as [Hfresh Hnodup].
    destruct (IH (with_memoryFs (<[k0 := content]> (memoryFs st)) st) Hnodup Hrest)
      as (st' & Hrun & Hlookup).
    exists st'. split; [done |]. intros k. rewrite Hlookup. simpl.
    destruct (decide (k0 = k)) as [<-|Hne].
    + rewrite lookup_insert_eq.
      rewrite (not_elem_of_list_to_map_1 _ _ Hfresh).
      rewrite lookup_insert_eq. unfold stored. by rewrite Hcontent.
    + by rewrite !(lookup_insert_ne _ k0 k).
Qed.

(** A readable document of Format B: every entry of [files] is stored, over
    what the store held. *)
Lemma parse_simple_lookup data decompressed document files st :
  class st = WormSimpleContainer →
  gunzipSync rt data = Returned decompressed →
  JSON_parse rt decompressed = Returned document →
  container_files document = Returned (JObj files) →
  map_Forall (λ _ v, returns (Buffer_from_base64 rt v)) files →
  ∃ st', parseContainerData rt data st = (Returned tt, st') ∧
         ∀ k, memoryFs st' !! k =
              match files !! k with
              | Some v => stored rt v
              | None => memoryFs st !! k
              end.
Proof.
  intros Hcls Hgz Hjson Hfiles Hall.
  unfold parseContainerData, try_catch. rewrite Hcls, Hgz, Hjson, Hfiles. simpl.
  destruct (load_entries_lookup (map_to_list files) st) as (st' & Hrun & Hlookup).
  - apply NoDup_fst_map_to_list.
  - apply Forall_forall. intros [k v] Hkv. simpl.
    apply elem_of_map_to_list in Hkv. by apply (Hall k v).
  - rewrite Hrun. exists st'. split; [done |]. intros k.
    rewrite Hlookup. by rewrite list_to_map_to_list.
Qed.

Lemma parseContainerData_lists data path st :
  archive_lists rt (class st) data path →
  ∃ st', parseContainerData rt data st = (Returned tt, st') ∧
         is_Some (memoryFs st' !! path).
Proof.
  destruct (class st) eqn:Hcls; simpl.
  - intros (entries & Hopen & Hall & Hfile & e & He & Hname).
    unfold parseContainerData. rewrite Hcls, Hopen.
    destruct (read_entries_lists entries st Hall) as (st' & Hrun & _ & Hin).
    exists st'. split; [done |]. rewrite <- Hname. apply Hin; [done | by rewrite Hname].
  - intros (d & doc & files & Hgz & Hjson & Hfiles & Hall & [v Hv]).
    destruct (parse_simple_lookup data d doc files st Hcls Hgz Hjson Hfiles Hall)
      as (st' & Hrun & Hlookup).
    exists st'. split; [done |]. rewrite Hlookup, Hv. unfold stored.
    destruct (Hall path v Hv) as [content ->]. eauto.
Qed.

(** The [files] object of a saved document: one base64 string per path,
    except that the path [__proto__] leaves no property behind. *)
Lemma files_object_spec (m : gmap string (list byte)) :
  files_object m = (λ content, JStr (Base64.encode content)) <$> delete "__proto__" m.
Proof.
  unfold files_object.
  apply (map_fold_weak_ind
    (λ (r : gmap string json) (m : gmap string (list byte)),
       r = (λ content, JStr (Base64.encode content)) <$> delete "__proto__" m)).
  - by rewrite delete_empty, fmap_empty.
  - intros k content m' r Hfresh ->. unfold object_set.
    destruct (decide (k = "__proto__")) as [->|Hne].
    + by rewrite delete_insert_eq.
    + by rewrite delete_insert_ne, fmap_insert.
Qed.

End ArchiveFacts.

(** ** Clearing, saving and loading again *)

(** C10. [clear()] empties the in-memory map and touches nothing else: the
    [isLoaded] flag stays as it was and no archive is read.  On a store that
    has not loaded yet, whose backing archive has an entry at [p], [clear()]
    followed by [exists(p)] answers [true]: the load that [exists] triggers
    reads the archive back in.  On a loaded store, [exists(p)] after
    [clear()] answers [false] for every [p]. *)
Theorem clear_does_not_load (rt : NodeRuntime) (h : Host) :
  (∀ st, clear st = (Returned tt, with_memoryFs ∅ st) ∧
         isLoaded (clear st).2 = isLoaded st) ∧
  (∀ st data p,
     isLoaded st = false →
     backing_archive h st = Some data →
     archive_lists rt (class st) data p →
     ∃ st', exists_ rt h p (clear st).2 = (Returned true, st')) ∧
  (∀ st p, isLoaded st = true →
           exists_ rt h p (clear st).2 = (Returned false, (clear st).2)).
Proof.
  split; [done |]. split.
  - intros st data p Hst Hdata Hlists. unfold clear. simpl.
    unfold exists_, bind. rewrite load_not_loaded by done.
    rewrite (load_archive_parses rt h data) by done.
    destruct (parseContainerData_lists rt data p (with_memoryFs ∅ st) Hlists)
      as (st' & -> & Hin).
    simpl. eexists. by rewrite bool_decide_eq_true_2.
  - intros st p Hst. unfold clear. simpl.
    unfold exists_, bind. rewrite load_loaded by done. simpl.
    rewrite lookup_empty. rewrite bool_decide_eq_false_2; [done |]. by intros [? ?].
Qed.

Lemma clear_does_not_load_witness :
  let files : gmap string json := {[ "a.txt" := JStr "QQ==" ]} in
  let document := JObj {[ "files" := JObj files ]} in
  let text := [x7b; x7d] in
  let rt := sample_runtime document text in
  let h := sample_host {[ "c.worm" := sample_gzip text ]} in
  let st := new_container WormSimpleContainer h (Some "c.worm") in
  isLoaded st = false ∧
  backing_archive h st = Some (sample_gzip text) ∧
  archive_lists rt (class st) (sample_gzip text) "a.txt" ∧
  ∃ st', exists_ rt h "a.txt" (clear st).2 = (Returned true, st').
Proof.
  simpl.
  assert (archive_lists (sample_runtime (JObj {[ "files" := JObj {[ "a.txt" := JStr "QQ==" ]} ]})
                           [x7b; x7d])
            WormSimpleContainer (sample_gzip [x7b; x7d]) "a.txt") as Hlists.
  { exists [x7b; x7d], (JObj {[ "files" := JObj {[ "a.txt" := JStr "QQ==" ]} ]}),
      {[ "a.txt" := JStr "QQ==" ]}.
    split; [reflexivity |]. split; [reflexivity |]. split; [reflexivity |]. split.
    - intros k v Hkv. apply lookup_singleton_Some in Hkv as [_ <-]. by eexists.
    - by eexists. }
  split; [reflexivity |]. split; [reflexivity |]. split; [exact Hlists |].
  apply (proj1 (proj2 (clear_does_not_load
           (sample_runtime (JObj {[ "files" := JObj {[ "a.txt" := JStr "QQ==" ]} ]}) [x7b; x7d])
           (sample_host {[ "c.worm" := sample_gzip [x7b; x7d] ]})))
         (new_container WormSimpleContainer
            (sample_host {[ "c.worm" := sample_gzip [x7b; x7d] ]}) (Some "c.worm"))
         (sample_gzip [x7b; x7d]) "a.txt"); [reflexivity | reflexivity | exact Hlists].
Defined.

Section SaveLoad.
Variable rt : NodeRuntime.
Variable h : Host.

Lemma save_simple outputPath st :
  class st = WormSimpleContainer →
  ∃ st1, load rt h st = (Returned tt, st1) ∧
         save rt h outputPath st =
           (Returned tt, st1,
            writeFileSync h (path_or outputPath (containerPath st1))
              (gzipSync rt (JSON_stringify rt
                 (container_document (now_iso h) (memoryFs st1))))).
Proof.
  intros Hcls. destruct (load_returns rt h st) as (st1 & Hload & _ & Hcls1 & _).
  exists st1. split; [done |]. unfold save, archive_blob.
  by rewrite Hload, Hcls1, Hcls.
Qed.

(** Saving in Format B and loading the file into a new store gives back
    every entry, byte for byte, but an entry at the path [__proto__]; this
    relies on gunzip undoing gzip and on [JSON.parse] reading back what
    [JSON.stringify] printed, for the document at hand. *)
Lemma save_then_load outputPath st st1 h1 st2 :
  class st = WormSimpleContainer →
  save rt h outputPath st = (Returned tt, st1, h1) →
  let document := container_document (now_iso h) (memoryFs st1) in
  gunzipSync rt (gzipSync rt (JSON_stringify rt document))
    = Returned (JSON_stringify rt document) →
  JSON_parse rt (JSON_stringify rt document) = Returned document →
  class st2 = WormSimpleContainer → isLoaded st2 = false → isEmbedded st2 = false →
  containerPath st2 = path_or outputPath (containerPath st1) → memoryFs st2 = ∅ →
  ∃ st3, load rt h1 st2 = (Returned tt, st3) ∧
         memoryFs st3 = delete "__proto__" (memoryFs st1) ∧
         ("__proto__" ∉ dom (memoryFs st1) → memoryFs st3 = memoryFs st1).
Proof.
  intros Hcls Hsave document Hgz Hjson Hcls2 Hfresh Hfile Hpath Hempty.
  destruct (save_simple outputPath st Hcls) as (st1' & _ & Hsave').
  rewrite Hsave in Hsave'. injection Hsave' as -> ->.
  rewrite load_not_loaded by done.
  rewrite (load_archive_parses rt _ (gzipSync rt (JSON_stringify rt document)));
    [| unfold backing_archive; rewrite Hfile, Hpath; simpl; apply lookup_insert_eq].
  destruct (parse_simple_lookup rt _ _ document (files_object (memoryFs st1')) st2
              Hcls2 Hgz Hjson) as (st3 & Hrun & Hlookup).
  - reflexivity.
  - rewrite files_object_spec. intros k v Hkv.
    apply lookup_fmap_Some in Hkv as (content & <- & _). by eexists.
  - rewrite Hrun. simpl. eexists. split; [done |]. simpl.
    assert (memoryFs st3 = delete "__proto__" (memoryFs st1')) as Hback.
    { apply map_eq. intros k. rewrite Hlookup, files_object_spec, lookup_fmap.
      destruct (delete "__proto__" (memoryFs st1') !! k) as [content|]; simpl.
      - unfold stored. simpl. by rewrite Base64Facts.decode_encode.
      - by rewrite Hempty, lookup_empty. }
    split; [done |]. intros Hnone. rewrite Hback. apply delete_id.
    by apply not_elem_of_dom.
Qed.

End SaveLoad.

Lemma save_then_load_witness :
  let m : gmap string (list byte) := {[ "a.bin" := [x00; xff; x00] ]} ∪ {[ "empty" := [] ]} in
  let st := {| class := WormSimpleContainer; containerPath := "c.worm";
               memoryFs := m; isLoaded := true; isEmbedded := false |} in
  let h := sample_host ∅ in
  let rt := sample_runtime (container_document (now_iso h) m) [x7b; x7d] in
  let st2 := new_container WormSimpleContainer (save rt h None st).2 (Some "c.worm") in
  memoryFs (load rt (save rt h None st).2 st2).2 = m.
Proof.
  intros m st h rt st2.
  destruct (save_then_load rt h None st st (save rt h None st).2 st2)
    as (st3 & Hload & _ & Hsame); [reflexivity.. |].
  rewrite Hload. simpl. apply Hsame. unfold st, m. simpl.
  rewrite dom_union_L, !dom_singleton_L.
  intros [Hin | Hin]%elem_of_union; apply elem_of_singleton in Hin; discriminate Hin.
Defined.

(** C2, where the code departs from it.  A store whose map holds the path
    [__proto__] saves a document with no such property: the file written is
    the one an empty store writes, so a store that loads it cannot get the
    entry back. *)
Theorem proto_path_lost_by_save (rt : NodeRuntime) (h : Host) (outputPath : option string)
    (path : string) (content : list byte) :
  let st := proto_store path content in
  files_object (memoryFs st) = ∅ ∧
  (save rt h outputPath st).2 = (save rt h outputPath (with_memoryFs ∅ st)).2 ∧
  ∀ st2, load rt (save rt h outputPath st).2 st2
         = load rt (save rt h outputPath (with_memoryFs ∅ st)).2 st2.
Proof.
  intros st.
  assert (files_object ({[ "__proto__" := content ]} : gmap string (list byte)) = ∅)
    as Hfiles.
  { rewrite files_object_spec. by rewrite delete_singleton_eq, fmap_empty. }
  assert ((save rt h outputPath st).2 = (save rt h outputPath (with_memoryFs ∅ st)).2)
    as Hsame.
  { unfold save. rewrite !load_loaded by done. unfold archive_blob, container_document.
    simpl. by rewrite Hfiles. }
  split; [exact Hfiles |]. split; [exact Hsame |].
  intros st2. by rewrite Hsame.
Qed.

(** The same on a run: save the store, load the file into a new store. *)
Lemma proto_path_lost_sample :
  let st := proto_store "c.worm" [x41] in
  let h := sample_host ∅ in
  let rt := sample_runtime (container_document (now_iso h) (memoryFs st)) [x7b; x7d] in
  let h1 := (save rt h None st).2 in
  memoryFs (load rt h1 (new_container WormSimpleContainer h1 (Some "c.worm"))).2 = ∅ ∧
  memoryFs st !! "__proto__" = Some [x41].
Proof.
  intros st h rt h1. split; [| reflexivity].
  destruct (save_then_load rt h None st st h1
              (new_container WormSimpleContainer h1 (Some "c.worm")))
    as (st3 & Hload & Hback & _); [reflexivity.. |].
  rewrite Hload. simpl. rewrite Hback. unfold st. simpl. apply delete_singleton_eq.
Qed.

(** ** Facades *)

(** C4, as stated, fails: the placeholder C++ call and the simulated
    [execute] of Python return their fallback value and leave the history of
    the session as it was. *)
Lemma placeholder_calls_record_nothing :
  let session := addToHistory 5 "js.double(5)" (VNum 10) (new_WormSession "s") in
  let f := {| cpp_name := "compute"; cpp_signature := "double"; nativeFunc := None |} in
  CppFunction_call f [VNum 16] 9 session = (Returned (VStr "C++ compute result"), session) ∧
  length (history (CppFunction_call f [VNum 16] 9 session).2) ≠ S (length (history session)) ∧
  PythonContext_execute None "print(2 + 3)" session
    = (Returned (VArr [VStr "Simulated Python result"]), session) ∧
  length (history (PythonContext_execute None "print(2 + 3)" session).2)
    ≠ S (length (history session)).
Proof. simpl. repeat split; discriminate. Qed.

(** C4, as the code has it.  With no native binding, [CppFunction.call]
    returns the string [C++ <name> result] and does not throw.  With
    python-shell missing, [PythonContext.execute] returns
    [['Simulated Python result']], does not throw and records nothing itself;
    [PythonFunction.call], which runs [execute] and then records, returns
    that value and appends exactly one record, labelled
    [python.<name>(<args>)]. *)
Theorem simulated_calls_fall_back :
  (∀ f args now session,
     nativeFunc f = None →
     (CppFunction_call f args now session).1
       = Returned (VStr ("C++ " +:+ cpp_name f +:+ " result"))) ∧
  (∀ code session,
     PythonContext_execute None code session
       = (Returned (VArr [VStr "Simulated Python result"]), session)) ∧
  (∀ stringify f args now session,
     let res := VArr [VStr "Simulated Python result"] in
     let label := "python." +:+ py_name f +:+ "(" +:+ python_argsCode stringify args +:+ ")" in
     (PythonFunction_call stringify None f args now session).1 = Returned res ∧
     history (PythonFunction_call stringify None f args now session).2
       = history session ++ [ {| timestamp := now; operation := label; result := res |} ]).
Proof.
  split; [| split].
  - intros f args now session Hnone. unfold CppFunction_call. by rewrite Hnone.
  - done.
  - done.
Qed.

Lemma simulated_calls_fall_back_witness :
  let f := {| cpp_name := "testFunc"; cpp_signature := "double"; nativeFunc := None |} in
  nativeFunc f = None ∧
  (CppFunction_call f [VNum 1; VNum 2] 0 (new_WormSession "cpp_test")).1
    = Returned (VStr "C++ testFunc result").
Proof.
  split; [reflexivity |].
  apply (proj1 simulated_calls_fall_back
           {| cpp_name := "testFunc"; cpp_signature := "double"; nativeFunc := None |}
           [VNum 1; VNum 2] 0 (new_WormSession "cpp_test")).
  reflexivity.
Defined.

(** C9, where the code departs from it.  The chain of the integration test,
    [array([1..10]).filter(even).map(square).reduce(add)], reaches the
    squares [4, 16, 36, 64, 100]; [JsArray.reduce] then hands the missing
    initial value on as [undefined], and the sum comes out as [NaN].  With an
    explicit initial value [0], or through [sum()], it is [220]. *)
Theorem fluent_chain_reduce :
  let data := new_JsArray (VArr (map VNum [1; 2; 3; 4; 5; 6; 7; 8; 9; 10])) in
  let squares := JsArray_map square (JsArray_filter is_even data) in
  squares = map VNum [4; 16; 36; 64; 100] ∧
  JsArray_reduce js_add None squares = Returned VNaN ∧
  JsArray_reduce js_add None squares ≠ Returned (VNum 220) ∧
  JsArray_reduce js_add (Some (VNum 0)) squares = Returned (VNum 220) ∧
  JsArray_sum squares = Returned (VNum 220).
Proof. simpl. repeat split. discriminate. Qed.

(** The other test on [reduce]: on an empty array, with no initial value,
    [Array.prototype.reduce] throws but [JsArray.reduce] returns [undefined]. *)
Lemma reduce_of_empty_array :
  (∃ message, Array_reduce js_add None [] = Thrown message) ∧
  JsArray_reduce js_add None (new_JsArray (VArr [])) = Returned VUndefined.
Proof. split; [by eexists | reflexivity]. Qed.

(** ** The checks of tests/worm.test.js, run on the model *)

Example test_store_and_retrieve :
  session_get "key" (session_set "key" (VStr "value") (new_WormSession "test")) = VStr "value".
Proof. reflexivity. Qed.

Example test_add_operations_to_history :
  map (λ r, (operation r, result r))
      (history (addToHistory 0 "test.operation" (VStr "result") (new_WormSession "test")))
    = [("test.operation", VStr "result")].
Proof. reflexivity. Qed.

Example test_shutdown_all_sessions :
  size (sessions (shutdown (createSession (Some "test2")
                              (createSession (Some "test1") new_WormCore).2).2)) = 0%nat.
Proof. reflexivity. Qed.

Example test_reduce_array :
  JsArray_reduce js_add (Some (VNum 0)) (new_JsArray (VArr (map VNum [1; 2; 3; 4])))
    = Returned (VNum 10).
Proof. reflexivity. Qed.

Example test_filter_array :
  JsArray_filter (λ x, VBool (match to_number x with Some z => 3 <? z | None => false end))
                 (new_JsArray (VArr (map VNum [1; 2; 3; 4; 5])))
    = map VNum [4; 5].
Proof. reflexivity. Qed.

Example test_js_function_call :
  let double args := match args with
                     | [x] => Returned (of_number (Z.mul 2 <$> to_number x))
                     | _ => Returned VNaN
                     end in
  let run := JsFunction_call "double" double [VNum 5] 3 (new_WormSession "js_test") in
  run.1 = Returned (VNum 10) ∧
  map operation (history run.2) = ["js.double(5)"].
Proof. split; reflexivity. Qed.

(** Known encodings. *)
Example base64_vectors :
  Base64.encode (list_byte_of_string "Man") = "TWFu" ∧
  Base64.encode (list_byte_of_string "Ma") = "TWE=" ∧
  Base64.encode (list_byte_of_string "M") = "TQ==" ∧
  Base64.encode [x00; xff; x10] = "AP8Q" ∧
  Base64.encode [] = EmptyString ∧
  Base64.decode "TWE=" = list_byte_of_string "Ma" ∧
  Base64.decode "AP8Q" = [x00; xff; x10].
Proof. repeat split. Qed.

Example directory_names :
  is_directory_name "assets/" = true ∧ is_directory_name "assets/a.txt" = false ∧
  is_directory_name EmptyString = false.
Proof. repeat split. Qed.

(* ===================================================================== *)
(** * Further properties of the container store *)
(* ===================================================================== *)

Lemma load_snd_loaded rt h st : isLoaded (load rt h st).2 = true.
Proof. destruct (load_returns rt h st) as (st' & -> & Hl & _). exact Hl. Qed.

Lemma load_pair rt h st : load rt h st = (Returned tt, (load rt h st).2).
Proof. destruct (load_returns rt h st) as (st' & -> & _). done. Qed.

Lemma write_then_read_any rt h st filePath (b : list byte) :
  ∃ st1, write rt h filePath (ContentBuffer b) st = (Returned tt, st1) ∧
         memoryFs st1 !! filePath = Some b ∧ isLoaded st1 = true.
Proof.
  unfold write, bind. rewrite (load_pair rt h st). simpl. eexists.
  split; [reflexivity |]. split; [apply lookup_insert_eq | apply load_snd_loaded].
Qed.

Lemma prefix_empty s : String.prefix EmptyString s = true.
Proof. by destruct s. Qed.

(** [list(prefix)] returns, without repetition, exactly the paths that
    [exists] confirms and that start with the prefix; with no prefix their
    number is the [fileCount] of [stats]. *)
Theorem list_agrees_with_exists (rt : NodeRuntime) (h : Host) (st : container)
    (pre : string) :
  let st0 := (load rt h st).2 in
  ∃ files,
    list_ rt h pre st = (Returned files, st0) ∧
    NoDup files ∧
    (∀ p, p ∈ files ↔
          exists_ rt h p st0 = (Returned true, st0) ∧ String.prefix pre p = true) ∧
    (pre = EmptyString →
       ∃ totalSize, stats rt h st0 = (Returned (length files, totalSize), st0)).
Proof.
  intros st0.
  assert (isLoaded st0 = true) as Hloaded by apply load_snd_loaded.
  assert (∀ p, p ∈ (map_to_list (memoryFs st0)).*1 ↔
               exists_ rt h p st0 = (Returned true, st0)) as Hin.
  { intros p. unfold exists_, bind. rewrite load_loaded by done. simpl.
    rewrite list_elem_of_fmap. split.
    - intros ([k v] & -> & Hkv). apply elem_of_map_to_list in Hkv.
      rewrite bool_decide_eq_true_2; [done | by eexists].
    - intros Heq. injection Heq as Heq. apply bool_decide_eq_true in Heq as [v Hv].
      exists (p, v). split; [done |]. by apply elem_of_map_to_list. }
  unfold list_, bind. rewrite (load_pair rt h st). fold st0. simpl.
  eexists. split; [reflexivity |].
  destruct (String.eqb pre EmptyString) eqn:Hpre.
  - apply String.eqb_eq in Hpre as ->. split; [apply NoDup_fst_map_to_list |]. split.
    + intros p. rewrite Hin, prefix_empty. tauto.
    + intros _. unfold stats, bind. rewrite load_loaded by done. simpl.
      eexists. by rewrite length_fmap, length_map_to_list.
  - split; [apply NoDup_ListNoDup, List.NoDup_filter, NoDup_ListNoDup,
            NoDup_fst_map_to_list |].
    split.
    + intros p. rewrite list_elem_of_In, List.filter_In, <- list_elem_of_In, Hin. tauto.
    + intros ->. discriminate Hpre.
Qed.

(** The sum [stats] computes does not depend on the order of the entries. *)
Lemma totalSize_insert (m : gmap string (list byte)) p b :
  m !! p = None →
  map_fold (λ (_ : string) (content : list byte) (totalSize : nat),
              (totalSize + length content)%nat) 0%nat (<[p := b]> m)
  = (map_fold (λ (_ : string) (content : list byte) (totalSize : nat),
                 (totalSize + length content)%nat) 0%nat m + length b)%nat.
Proof.
  intros Hp.
  rewrite (map_fold_insert_L
             (λ (_ : string) (content : list byte) (totalSize : nat),
                (totalSize + length content)%nat)); [done | | done].
  intros. lia.
Qed.

(** [stats] follows [write]: a new path adds one file and the length of its
    content; a path already there keeps the count and trades the old length
    for the new one. *)
Theorem stats_after_write (rt : NodeRuntime) (h : Host) (st : container)
    (filePath : string) (b : list byte) :
  let st0 := (load rt h st).2 in
  let st1 := (write rt h filePath (ContentBuffer b) st).2 in
  ∃ fileCount totalSize fileCount' totalSize',
    stats rt h st0 = (Returned (fileCount, totalSize), st0) ∧
    stats rt h st1 = (Returned (fileCount', totalSize'), st1) ∧
    match memoryFs st0 !! filePath with
    | None => fileCount' = S fileCount ∧ totalSize' = (totalSize + length b)%nat
    | Some old =>
        fileCount' = fileCount ∧
        (totalSize' + length old = totalSize + length b)%nat
    end.
Proof.
  intros st0 st1.
  assert (isLoaded st0 = true) as Hloaded by apply load_snd_loaded.
  assert (st1 = with_memoryFs (<[filePath := b]> (memoryFs st0)) st0) as Hst1.
  { unfold st1, write, bind. by rewrite (load_pair rt h st). }
  do 4 eexists. split; [| split].
  - unfold stats, bind. rewrite load_loaded by done. reflexivity.
  - unfold stats, bind. rewrite load_loaded by (rewrite Hst1; done). reflexivity.
  - rewrite Hst1. simpl. destruct (memoryFs st0 !! filePath) as [old|] eqn:Hold.
    + rewrite <- (insert_delete_id (memoryFs st0) filePath old Hold) at 2 4.
      rewrite <- (insert_delete_eq (memoryFs st0) filePath b).
      rewrite !map_size_insert_None by apply lookup_delete_eq.
      rewrite !totalSize_insert by apply lookup_delete_eq.
      split; [done | lia].
    + rewrite map_size_insert_None by done. by rewrite totalSize_insert.
Qed.

(** [addFile] copies a file of the host into the store: [read] of the target
    path (the given one, or else the base name of the source) returns the
    bytes of the file.  A source that does not exist makes it throw
    [File not found: <source>], after the store has loaded and with no entry
    added. *)
Theorem addFile_then_read (rt : NodeRuntime) (h : Host) (pm : PathModule)
    (st : container) (filePath : string) (targetPath : option string) :
  let actualPath := path_or targetPath (path_basename pm filePath) in
  (∀ content, fs h !! filePath = Some content →
     ∃ st1, addFile rt h pm filePath targetPath st = (Returned tt, st1) ∧
            read rt h actualPath st1 = (Returned content, st1)) ∧
  (fs h !! filePath = None →
     addFile rt h pm filePath targetPath st
       = (Thrown ("File not found: " +:+ filePath), (load rt h st).2)).
Proof.
  intros actualPath. unfold addFile, bind. rewrite (load_pair rt h st).
  unfold existsSync, readFileSync. split.
  - intros content Hsrc. rewrite Hsrc.
    rewrite bool_decide_eq_true_2 by eauto.
    eexists. split; [reflexivity |].
    unfold read, bind. rewrite load_loaded by apply load_snd_loaded. simpl.
    by rewrite lookup_insert_eq.
  - intros Hsrc. rewrite Hsrc.
    rewrite bool_decide_eq_false_2; [done |]. by intros [? ?].
Qed.

Lemma addFile_then_read_witness :
  let rt := sample_runtime JNull [] in
  let h := sample_host {[ "data/in.bin" := [x00; x41; xff] ]} in
  let pm := {| path_basename := λ _, "in.bin"; path_join := λ a b, a +:+ "/" +:+ b |} in
  let st := new_container WormSimpleContainer h (Some "c.worm") in
  fs h !! "data/in.bin" = Some [x00; x41; xff] ∧
  fs h !! "missing.bin" = None ∧
  (∃ st1, addFile rt h pm "data/in.bin" None st = (Returned tt, st1) ∧
          read rt h "in.bin" st1 = (Returned [x00; x41; xff], st1)) ∧
  addFile rt h pm "missing.bin" None st
    = (Thrown "File not found: missing.bin", (load rt h st).2).
Proof.
  intros rt h pm st. split; [reflexivity |]. split; [reflexivity |]. split.
  - apply (proj1 (addFile_then_read rt h pm st "data/in.bin" None)). reflexivity.
  - apply (proj2 (addFile_then_read rt h pm st "missing.bin" None)). reflexivity.
Defined.

(** *** Extraction *)

Section Extraction.
Variable rt : NodeRuntime.
Variable fsm : FsModule.
Variable path_dirname : string → string.
Hypothesis Hwrite : writes_one_file fsm.
Hypothesis Hmkdir : mkdir_keeps_files fsm.

Lemma write_under_returns target content d d' :
  write_under fsm path_dirname target content d = (Returned tt, d') →
  host_of fsm d' = writeFileSync (host_of fsm d) target content.
Proof.
  unfold write_under.
  destruct (fs_existsSync fsm d (path_dirname target)).
  - apply Hwrite.
  - destruct (fs_mkdirSync fsm d (path_dirname target)) as [[[]|err] d1] eqn:Hdir; [| done].
    intros Hrun. apply Hwrite in Hrun. by rewrite (Hmkdir _ _ _ _ Hdir) in Hrun.
Qed.

Lemma write_under_throws target content d err d' :
  write_under fsm path_dirname target content d = (Thrown err, d') →
  (fs_existsSync fsm d (path_dirname target) = false ∧
   fs_mkdirSync fsm d (path_dirname target) = (Thrown err, d')) ∨
  (∃ d1, fs_writeFileSync fsm d1 target content = (Thrown err, d')).
Proof.
  unfold write_under.
  destruct (fs_existsSync fsm d (path_dirname target)).
  - intros Hrun. right. by exists d.
  - destruct (fs_mkdirSync fsm d (path_dirname target)) as [[[]|err1] d1] eqn:Hdir.
    + intros Hrun. right. by exists d1.
    + intros [= <- <-]. by left.
Qed.

Lemma extract_steps filePath outputPath st d :
  let st0 := (load rt (host_of fsm d) st).2 in
  extract rt fsm path_dirname filePath outputPath st d
  = match memoryFs st0 !! filePath with
    | Some content =>
        let '(r, d') := write_under fsm path_dirname (path_or outputPath filePath) content d in
        (r, st0, d')
    | None => (Thrown ("File not found in container: " +:+ filePath), st0, d)
    end.
Proof.
  intros st0. unfold extract, read, bind.
  rewrite (load_pair rt (host_of fsm d) st). fold st0.
  by destruct (memoryFs st0 !! filePath).
Qed.

Lemma extract_entry filePath outputPath st d content :
  let h := host_of fsm d in
  let st0 := (load rt h st).2 in
  let targetPath := path_or outputPath filePath in
  memoryFs st0 !! filePath = Some content →
  ∃ r d',
    extract rt fsm path_dirname filePath outputPath st d = (r, st0, d') ∧
    (r = Returned tt → host_of fsm d' = writeFileSync h targetPath content) ∧
    (∀ err, r = Thrown err →
       (fs_existsSync fsm d (path_dirname targetPath) = false ∧
        fs_mkdirSync fsm d (path_dirname targetPath) = (Thrown err, d')) ∨
       (∃ d1, fs_writeFileSync fsm d1 targetPath content = (Thrown err, d'))) ∧
    (fs_existsSync fsm d (path_dirname targetPath) = true →
       fs_writeFileSync fsm d targetPath content = (r, d')).
Proof.
  intros h st0 targetPath Hin.
  pose proof (extract_steps filePath outputPath st d) as Hsteps. simpl in Hsteps.
  fold h st0 targetPath in Hsteps. rewrite Hin in Hsteps.
  destruct (write_under fsm path_dirname targetPath content d) as [r d'] eqn:Hrun.
  exists r, d'. split; [exact Hsteps |]. split; [| split].
  - intros ->. by apply write_under_returns.
  - intros err ->. by apply write_under_throws.
  - intros Hdir. unfold write_under in Hrun. by rewrite Hdir in Hrun.
Qed.

Lemma write_entries_spec (pm : PathModule) (outputDir : string)
    (entries : list (string * list byte)) : ∀ d d',
  NoDup ((λ entry, path_join pm outputDir entry.1) <$> entries) →
  write_entries fsm path_dirname pm outputDir entries d = (Returned tt, d') →
  (∀ p content, (p, content) ∈ entries →
                fs (host_of fsm d') !! path_join pm outputDir p = Some content) ∧
  (∀ other, (∀ p content, (p, content) ∈ entries →
                          path_join pm outputDir p ≠ other) →
            fs (host_of fsm d') !! other = fs (host_of fsm d) !! other).
Proof.
  induction entries as [|[p0 c0] entries IH]; intros d d' Hnodup; simpl.
  - intros [= <-]. split; [| done]. intros p content Hin. by apply elem_of_nil in Hin.
  - rewrite fmap_cons in Hnodup. apply NoDup_cons in Hnodup as [Hfresh Hnodup].
    destruct (write_under fsm path_dirname (path_join pm outputDir p0) c0 d)
      as [[[]|err] d1] eqn:Hfirst; [| done].
    apply write_under_returns in Hfirst.
    intros Hrest. destruct (IH d1 d' Hnodup Hrest) as [Hwritten Hothers]. split.
    + intros p content Hin. apply elem_of_cons in Hin as [[= -> ->] | Hin].
      * rewrite Hothers, Hfirst; [apply lookup_insert_eq |].
        intros p content Hin Heq. apply Hfresh.
        apply list_elem_of_fmap. exists (p, content). by split.
      * by apply (Hwritten p content).
    + intros other Hother. rewrite Hothers, Hfirst.
      * simpl. rewrite lookup_insert_ne; [done |].
        apply (Hother p0 c0). apply elem_of_cons. by left.
      * intros p content Hin. apply (Hother p content). apply elem_of_cons. by right.
Qed.
End Extraction.

Lemma sample_fs_writes_one_file : writes_one_file sample_fs.
Proof.
  intros d path data d'. simpl.
  destruct (bool_decide (path ∈ disk_dirs d)); [done |].
  destruct (bool_decide (sample_dirname path ∈ disk_dirs d)); [by intros [= <-] |].
  by destruct (bool_decide (is_Some (fs (disk_host d) !! sample_dirname path))).
Qed.

Lemma sample_fs_mkdir_keeps_files : mkdir_keeps_files sample_fs.
Proof.
  intros d path r d'. simpl.
  destruct (bool_decide (is_Some (fs (disk_host d) !! path))); by intros [= <- <-].
Qed.

(** [extract] of a path that is not in the store throws what [read] throws
    and makes no call on the host.  For an entry of the store: when
    [extract] returns, the host is the one before with the bytes of the entry
    at the target (the output path, or else the path of the entry) and no
    other file changed; when it throws, the error is the one [mkdirSync] or
    [writeFileSync] threw; and when the directory of the target exists, the
    result is that of [writeFileSync] alone.  The store is left as [load]
    left it in every case. *)
Theorem extract_writes_the_entry (rt : NodeRuntime) (fsm : FsModule)
    (path_dirname : string → string) (st : container) (d : disk fsm)
    (filePath : string) (outputPath : option string) :
  writes_one_file fsm → mkdir_keeps_files fsm →
  let h := host_of fsm d in
  let st0 := (load rt h st).2 in
  let targetPath := path_or outputPath filePath in
  (memoryFs st0 !! filePath = None →
     extract rt fsm path_dirname filePath outputPath st d
       = (Thrown ("File not found in container: " +:+ filePath), st0, d)) ∧
  (∀ content, memoryFs st0 !! filePath = Some content →
     ∃ r d',
       extract rt fsm path_dirname filePath outputPath st d = (r, st0, d') ∧
       (r = Returned tt → host_of fsm d' = writeFileSync h targetPath content) ∧
       (∀ err, r = Thrown err →
          (fs_existsSync fsm d (path_dirname targetPath) = false ∧
           fs_mkdirSync fsm d (path_dirname targetPath) = (Thrown err, d')) ∨
          (∃ d1, fs_writeFileSync fsm d1 targetPath content = (Thrown err, d'))) ∧
       (fs_existsSync fsm d (path_dirname targetPath) = true →
          fs_writeFileSync fsm d targetPath content = (r, d'))).
Proof.
  intros Hwrite Hmkdir h st0 targetPath. split.
  - intros Hout.
    pose proof (extract_steps rt fsm path_dirname filePath outputPath st d) as Hsteps.
    simpl in Hsteps. fold h st0 in Hsteps. by rewrite Hout in Hsteps.
  - intros content Hin. by apply extract_entry.
Qed.

Lemma extract_writes_the_entry_witness :
  let rt := sample_runtime JNull [] in
  let d := {| disk_host := sample_host {[ "keep.txt" := [x42] ]};
              disk_dirs := {[ "."; "out" ]} |} in
  let st := {| class := WormContainer; containerPath := "c.worm";
               memoryFs := {[ "a.bin" := [x00; x41] ]};
               isLoaded := true; isEmbedded := false |} in
  (∃ d', extract rt sample_fs sample_dirname "a.bin" (Some "out/a.bin") st d
           = (Returned tt, st, d') ∧
         fs (disk_host d') !! "out/a.bin" = Some [x00; x41] ∧
         fs (disk_host d') !! "keep.txt" = Some [x42]) ∧
  (∃ d', extract rt sample_fs sample_dirname "a.bin" (Some "out") st d
           = (Thrown "EISDIR: illegal operation on a directory, open 'out'", st, d')) ∧
  extract rt sample_fs sample_dirname "b.bin" None st d
    = (Thrown "File not found in container: b.bin", st, d).
Proof.
  intros rt d st.
  pose proof (extract_writes_the_entry rt sample_fs sample_dirname st d)
    as Hextract.
  split; [| split].
  - destruct (proj2 (Hextract "a.bin" (Some "out/a.bin") sample_fs_writes_one_file
                       sample_fs_mkdir_keeps_files) [x00; x41] eq_refl)
      as (r & d' & Hrun & Hreturns & _ & Hdir).
    assert (r = Returned tt) as ->.
    { specialize (Hdir eq_refl). apply (f_equal fst) in Hdir.
      vm_compute in Hdir. congruence. }
    exists d'. split; [exact Hrun |].
    pose proof (Hreturns eq_refl) as Hhost. simpl in Hhost. rewrite Hhost. by split.
  - destruct (proj2 (Hextract "a.bin" (Some "out") sample_fs_writes_one_file
                       sample_fs_mkdir_keeps_files) [x00; x41] eq_refl)
      as (r & d' & Hrun & _ & _ & Hdir).
    assert (r = Thrown "EISDIR: illegal operation on a directory, open 'out'") as ->.
    { specialize (Hdir eq_refl). apply (f_equal fst) in Hdir.
      vm_compute in Hdir. congruence. }
    exists d'. exact Hrun.
  - apply (proj1 (Hextract "b.bin" None sample_fs_writes_one_file
                    sample_fs_mkdir_keeps_files)). reflexivity.
Defined.

(** From host to store and back: a file added with [addFile] and then
    extracted under the path [addFile] stored it at reaches the host, when
    the extraction returns, with the bytes of the source, at the output path
    or else at that path; no other file has changed.  The extraction returns
    when the directory of the target exists and [writeFileSync] returns. *)
Theorem addFile_then_extract (rt : NodeRuntime) (fsm : FsModule)
    (path_dirname : string → string) (pm : PathModule)
    (st : container) (d : disk fsm) (source : string) (target output : option string)
    (content : list byte) :
  writes_one_file fsm → mkdir_keeps_files fsm →
  fs (host_of fsm d) !! source = Some content →
  let h := host_of fsm d in
  let stored := path_or target (path_basename pm source) in
  let targetPath := path_or output stored in
  ∃ st1 r d',
    addFile rt h pm source target st = (Returned tt, st1) ∧
    extract rt fsm path_dirname stored output st1 d = (r, st1, d') ∧
    (r = Returned tt →
       fs (host_of fsm d') !! targetPath = Some content ∧
       ∀ other, other ≠ targetPath → fs (host_of fsm d') !! other = fs h !! other) ∧
    (fs_existsSync fsm d (path_dirname targetPath) = true →
       fs_writeFileSync fsm d targetPath content = (r, d')).
Proof.
  intros Hwrite Hmkdir Hsrc h stored targetPath.
  set (st0 := (load rt h st).2).
  set (st1 := with_memoryFs (<[stored := content]> (memoryFs st0)) st0).
  assert (addFile rt h pm source target st = (Returned tt, st1)) as Hadd.
  { unfold addFile, bind. rewrite (load_pair rt h st).
    unfold existsSync, readFileSync. fold h in Hsrc. rewrite Hsrc.
    by rewrite bool_decide_eq_true_2 by eauto. }
  assert (isLoaded st1 = true) as Hloaded by apply load_snd_loaded.
  assert (memoryFs (load rt h st1).2 !! stored = Some content) as Hin.
  { rewrite load_loaded by done. apply lookup_insert_eq. }
  destruct (extract_entry rt fsm path_dirname Hwrite Hmkdir stored output st1 d content Hin)
    as (r & d' & Hrun & Hreturns & _ & Hdir).
  fold h in Hrun, Hreturns. rewrite load_loaded in Hrun by done.
  exists st1, r, d'. split; [exact Hadd |]. split; [exact Hrun |]. split; [| exact Hdir].
  intros Hr. rewrite (Hreturns Hr). simpl. split; [apply lookup_insert_eq |].
  intros other Hother. by rewrite lookup_insert_ne.
Qed.

Lemma addFile_then_extract_witness :
  let rt := sample_runtime JNull [] in
  let d := {| disk_host := sample_host {[ "data/in.bin" := [x00; xff] ]};
              disk_dirs := {[ "."; "data" ]} |} in
  let pm := {| path_basename := λ _, "in.bin"; path_join := λ a b, a +:+ "/" +:+ b |} in
  let st := new_container WormContainer (disk_host d) (Some "absent.worm") in
  ∃ st1 d',
    addFile rt (disk_host d) pm "data/in.bin" None st = (Returned tt, st1) ∧
    extract rt sample_fs sample_dirname "in.bin" (Some "out.bin") st1 d
      = (Returned tt, st1, d') ∧
    fs (disk_host d') !! "out.bin" = Some [x00; xff].
Proof.
  intros rt d pm st.
  destruct (addFile_then_extract rt sample_fs sample_dirname pm st d "data/in.bin"
              None (Some "out.bin") [x00; xff]
              sample_fs_writes_one_file sample_fs_mkdir_keeps_files eq_refl)
    as (st1 & r & d' & Hadd & Hrun & Hreturns & Hdir).
  assert (r = Returned tt) as ->.
  { specialize (Hdir eq_refl). apply (f_equal fst) in Hdir.
    vm_compute in Hdir. congruence. }
  exists st1, d'. split; [exact Hadd |]. split; [exact Hrun |].
  apply (Hreturns eq_refl).
Defined.

(** When [extractAll] returns, every entry of the store is on the host at
    the join of the output directory and its path, with its bytes, and no
    other file has changed; this for every order in which the map may hand
    out its entries, provided joining keeps the paths of the store distinct.
    The store is left as [load] left it whether the call returns or
    throws. *)
Theorem extractAll_writes_every_entry (rt : NodeRuntime) (fsm : FsModule)
    (path_dirname : string → string) (pm : PathModule)
    (iteration : gmap string (list byte) → list (string * list byte))
    (st : container) (d : disk fsm) (outputDir : string) :
  writes_one_file fsm → mkdir_keeps_files fsm →
  let h := host_of fsm d in
  let st0 := (load rt h st).2 in
  iteration (memoryFs st0) ≡ₚ map_to_list (memoryFs st0) →
  (∀ p q, is_Some (memoryFs st0 !! p) → is_Some (memoryFs st0 !! q) →
          path_join pm outputDir p = path_join pm outputDir q → p = q) →
  ∃ r d',
    extractAll rt fsm path_dirname pm outputDir iteration st d = (r, st0, d') ∧
    (r = Returned tt →
       (∀ p content, memoryFs st0 !! p = Some content →
                     fs (host_of fsm d') !! path_join pm outputDir p = Some content) ∧
       (∀ other, (∀ p, is_Some (memoryFs st0 !! p) → path_join pm outputDir p ≠ other) →
                 fs (host_of fsm d') !! other = fs h !! other)).
Proof.
  intros Hwrite Hmkdir h st0 Horder Hinj.
  assert (∀ p content, (p, content) ∈ iteration (memoryFs st0) ↔
                       memoryFs st0 !! p = Some content) as Hentries.
  { intros p content. rewrite Horder. apply elem_of_map_to_list. }
  assert (NoDup ((λ entry, path_join pm outputDir entry.1) <$> iteration (memoryFs st0)))
    as Hnodup.
  { apply (NoDup_fmap_2_strong _).
    - intros [p c] [q c'] Hp Hq Heq. simpl in Heq.
      apply Hentries in Hp, Hq.
      assert (p = q) as -> by (apply Hinj; eauto). congruence.
    - rewrite Horder. apply NoDup_map_to_list. }
  unfold extractAll. rewrite (load_pair rt (host_of fsm d) st). fold h st0.
  destruct (if fs_existsSync fsm d outputDir then (Returned tt, d)
            else fs_mkdirSync fsm d outputDir) as [[[]|err] d1] eqn:Hdir.
  - assert (host_of fsm d1 = h) as Hd1.
    { destruct (fs_existsSync fsm d outputDir); [by injection Hdir as <- |].
      by apply Hmkdir in Hdir. }
    destruct (write_entries fsm path_dirname pm outputDir (iteration (memoryFs st0)) d1)
      as [r d2] eqn:Hrun.
    exists r, d2. split; [done |]. intros ->.
    destruct (write_entries_spec fsm path_dirname Hwrite Hmkdir pm outputDir _ d1 d2
                Hnodup Hrun) as [Hwritten Hothers].
    rewrite Hd1 in Hothers. split.
    + intros p content Hp. apply (Hwritten p content). by apply Hentries.
    + intros other Hother. apply Hothers. intros p content Hp.
      apply Hother. apply Hentries in Hp. by eexists.
  - exists (Thrown err), d1. split; [done |]. done.
Qed.

Lemma extractAll_writes_every_entry_witness :
  let rt := sample_runtime JNull [] in
  let d := {| disk_host := sample_host {[ "keep.txt" := [x42] ]};
              disk_dirs := {[ "." ]} |} in
  let pm := {| path_basename := λ p, p; path_join := λ a b, a +:+ "/" +:+ b |} in
  let st := {| class := WormContainer; containerPath := "c.worm";
               memoryFs := {[ "a.txt" := [x41]; "dir/b.bin" := [x00; xff] ]};
               isLoaded := true; isEmbedded := false |} in
  let run := extractAll rt sample_fs sample_dirname pm "out" map_to_list st d in
  run.1 = (Returned tt, st) ∧
  fs (disk_host run.2) !! "out/a.txt" = Some [x41] ∧
  fs (disk_host run.2) !! "out/dir/b.bin" = Some [x00; xff] ∧
  fs (disk_host run.2) !! "keep.txt" = Some [x42].
Proof.
  intros rt d pm st run.
  assert (run.1 = (Returned tt, st)) as Hreturned by (vm_compute; reflexivity).
  destruct (extractAll_writes_every_entry rt sample_fs sample_dirname pm map_to_list
              st d "out" sample_fs_writes_one_file sample_fs_mkdir_keeps_files)
    as (r & d' & Hrun & Hreturns).
  - reflexivity.
  - intros p q _ _ Heq. simpl in Heq. injection Heq as Heq. exact Heq.
  - fold run in Hrun. rewrite Hrun in Hreturned |- *. simpl in Hreturned |- *.
    injection Hreturned as ->.
    destruct (Hreturns eq_refl) as [Hwritten Hothers].
    split; [reflexivity |]. split; [| split].
    + by apply (Hwritten "a.txt").
    + by apply (Hwritten "dir/b.bin").
    + rewrite Hothers; [reflexivity |].
      intros p _. simpl. discriminate.
Defined.

(** The sample disk on a store that holds a path and a path below it: the
    first becomes a file, and the write of the second is refused. *)
Example extractAll_nested_sample :
  let d := {| disk_host := sample_host ∅; disk_dirs := {[ "." ]} |} in
  let pm := {| path_basename := λ p, p; path_join := λ a b, a +:+ "/" +:+ b |} in
  let st := {| class := WormContainer; containerPath := "c.worm";
               memoryFs := {[ "a" := [x41]; "a/b" := [x42] ]};
               isLoaded := true; isEmbedded := false |} in
  let run := extractAll (sample_runtime JNull []) sample_fs sample_dirname pm "out"
                        (λ _, [("a", [x41]); ("a/b", [x42])]) st d in
  run.1 = (Thrown "ENOTDIR: not a directory, open 'out/a/b'", st) ∧
  fs (disk_host run.2) !! "out/a" = Some [x41].
Proof. split; vm_compute; reflexivity. Qed.

Lemma readJSON_present rt tr h st filePath content :
  memoryFs (load rt h st).2 !! filePath = Some content →
  readJSON rt tr h filePath st
  = (match JSON_parse_text tr (Buffer_toString tr "utf8" content) with
     | Returned value => Returned value
     | Thrown err => Thrown err
     end, (load rt h st).2).
Proof.
  intros Hin. unfold readJSON, readText, read, bind.
  rewrite (load_pair rt h st), Hin. simpl.
  by destruct (JSON_parse_text tr (Buffer_toString tr "utf8" content)).
Qed.

(** [readText] and [readJSON] of a path that is not in the store throw the
    error of [read] and decode nothing; for a path that is there,
    [readJSON] returns what [JSON.parse] makes of the decoded text, or throws
    what [JSON.parse] throws, and the store stays as it is. *)
Theorem readJSON_failures (rt : NodeRuntime) (tr : TextRuntime) (h : Host)
    (st : container) (filePath : string) :
  let st0 := (load rt h st).2 in
  (memoryFs st0 !! filePath = None →
     ∀ encoding,
       readText rt tr h filePath encoding st
         = (Thrown ("File not found in container: " +:+ filePath), st0) ∧
       readJSON rt tr h filePath st
         = (Thrown ("File not found in container: " +:+ filePath), st0)) ∧
  (∀ content, memoryFs st0 !! filePath = Some content →
     readJSON rt tr h filePath st
     = (match JSON_parse_text tr (Buffer_toString tr "utf8" content) with
        | Returned value => Returned value
        | Thrown err => Thrown err
        end, st0)).
Proof.
  intros st0. split.
  - intros Hout encoding. unfold readJSON, readText, read, bind.
    rewrite (load_pair rt h st). fold st0. by rewrite Hout.
  - intros content Hin. by apply readJSON_present.
Qed.

Lemma readJSON_failures_witness :
  let rt := sample_runtime JNull [] in
  let tr := {| Buffer_from_text := λ _ text, list_byte_of_string text;
               Buffer_toString := λ _ buffer, string_of_list_byte buffer;
               JSON_stringify_indent := λ _ _, "null";
               JSON_parse_text := λ text, if String.eqb text "null" then Returned JNull
                                          else Thrown "Unexpected token" |} in
  let h := sample_host ∅ in
  let st := {| class := WormContainer; containerPath := "c.worm";
               memoryFs := {[ "bad.json" := [x7b] ]};
               isLoaded := true; isEmbedded := false |} in
  readJSON rt tr h "none.json" st = (Thrown "File not found in container: none.json", st) ∧
  readJSON rt tr h "bad.json" st = (Thrown "Unexpected token", st).
Proof.
  intros rt tr h st. split.
  - apply (proj1 (readJSON_failures rt tr h st "none.json")); [reflexivity | exact "utf8"].
  - apply (proj2 (readJSON_failures rt tr h st "bad.json") [x7b]). reflexivity.
Defined.

(** [writeJSON] then [readJSON] gives the value back, when decoding undoes
    the encoding of the text and [JSON.parse] reads what [JSON.stringify]
    printed; what the path held before does not matter. *)
Theorem writeJSON_then_readJSON (rt : NodeRuntime) (tr : TextRuntime) (h : Host)
    (st : container) (filePath : string) (obj : json) (indent : nat) :
  let text := JSON_stringify_indent tr obj indent in
  Buffer_toString tr "utf8" (Buffer_from_text tr "utf8" text) = text →
  JSON_parse_text tr text = Returned obj →
  ∃ st1, writeJSON rt tr h filePath obj indent st = (Returned tt, st1) ∧
         readJSON rt tr h filePath st1 = (Returned obj, st1).
Proof.
  intros text Hcodec Hjson.
  destruct (write_then_read_any rt h st filePath (Buffer_from_text tr "utf8" text))
    as (st1 & Hwrite & Hin & Hloaded).
  exists st1. split; [exact Hwrite |].
  pose proof (readJSON_present rt tr h st1 filePath) as Hread.
  rewrite load_loaded in Hread by done.
  rewrite (Hread _ Hin), Hcodec, Hjson. done.
Qed.

Lemma writeJSON_then_readJSON_witness :
  let rt := sample_runtime JNull [] in
  let tr := {| Buffer_from_text := λ _ text, list_byte_of_string text;
               Buffer_toString := λ _ buffer, string_of_list_byte buffer;
               JSON_stringify_indent := λ _ _, "null";
               JSON_parse_text := λ text, if String.eqb text "null" then Returned JNull
                                          else Thrown "Unexpected token" |} in
  let h := sample_host ∅ in
  let st := new_container WormSimpleContainer h (Some "c.worm") in
  ∃ st1, writeJSON rt tr h "v.json" JNull 2 st = (Returned tt, st1) ∧
         readJSON rt tr h "v.json" st1 = (Returned JNull, st1).
Proof.
  intros rt tr h st.
  apply (writeJSON_then_readJSON rt tr h st "v.json" JNull 2); reflexivity.
Defined.







(** A store reads either the embedded resource or the archive file, never
    both: in a packaged executable [load] does not depend on the file system
    (so what [save] wrote is not what a later [load] reads), and outside of
    one it depends on the file at [containerPath] only. *)
Theorem load_reads_one_source (rt : NodeRuntime) (h h' : Host) (st : container) :
  (isEmbedded st = true → embedded_container h = embedded_container h' →
     load rt h st = load rt h' st) ∧
  (isEmbedded st = false → fs h !! containerPath st = fs h' !! containerPath st →
     load rt h st = load rt h' st).
Proof.
  unfold load, try_catch, bind, load_archive. split.
  - intros -> Hsame. destruct (isLoaded st); [done |].
    unfold loadEmbeddedContainer, getEmbeddedContainerData. by rewrite Hsame.
  - intros -> Hsame. destruct (isLoaded st); [done |].
    unfold loadContainerFile, existsSync, readFileSync. by rewrite Hsame.
Qed.

Lemma load_reads_one_source_witness :
  let rt := sample_runtime JNull [] in
  let h := sample_host ∅ in
  let h' := sample_host {[ "c.worm" := [x1f; x8b; x7b; x7d] ]} in
  let st := {| class := WormSimpleContainer; containerPath := "c.worm";
               memoryFs := ∅; isLoaded := false; isEmbedded := true |} in
  load rt h st = load rt h' st.
Proof.
  intros rt h h' st.
  apply (proj1 (load_reads_one_source rt h h' st)); reflexivity.
Defined.

(* ===================================================================== *)
(** * Further properties of sessions and of the registry *)
(* ===================================================================== *)

Lemma run_session_calls_context clock key cs : ∀ i s,
  context (run_session_calls clock i cs s) !! key = last_set key cs (context s !! key).
Proof.
  induction cs as [|c cs IH]; intros i s; simpl; [done |].
  rewrite IH. destruct c as [k v| |]; simpl; [| done | done].
  destruct (decide (k = key)) as [->|Hne];
    [by rewrite lookup_insert_eq | by rewrite lookup_insert_ne].
Qed.

(** After any sequence of calls on a new session, [get(key)] returns the
    value of the last [set(key, _)], or [undefined] when the key was never
    set; calls of [get] and [addToHistory] and sets of other keys in between
    do not matter. *)
Theorem get_reads_last_set (name key : string) (clock : nat → Z) (cs : list session_call) :
  session_get key (run_session_calls clock 0 cs (new_WormSession name))
    = default VUndefined (last_set key cs None).
Proof.
  unfold session_get. rewrite run_session_calls_context. simpl.
  by rewrite lookup_empty.
Qed.

(** [closeSession] blanks the session object it unregisters, as a caller
    that still holds it sees: context and history are empty, the name is
    kept; every other session object and every other name are as before. *)
Theorem closeSession_cleans_the_object (core : WormCore) (name : string)
    (session : loc) (s : WormSession) :
  sessions core !! name = Some session →
  heap core !! session = Some s →
  let core' := closeSession name core in
  (∃ s', heap core' !! session = Some s' ∧
         session_name s' = session_name s ∧ context s' = ∅ ∧ history s' = []) ∧
  (∀ other, other ≠ session → heap core' !! other = heap core !! other) ∧
  (∀ n, n ≠ name → sessions core' !! n = sessions core !! n).
Proof.
  intros Hname Hs. unfold closeSession. rewrite Hname. simpl. split; [| split].
  - exists (cleanup s). split; [| done].
    rewrite lookup_alter. case_decide; [by rewrite Hs | congruence].
  - intros other Hother. rewrite lookup_alter. case_decide; congruence.
  - intros n Hn. by rewrite lookup_delete_ne.
Qed.

Lemma closeSession_cleans_the_object_witness :
  let core := on_session 1%positive 3 (CallAddToHistory "op" (VNum 1))
                (createSession (Some "s") new_WormCore).2 in
  ∃ s', heap (closeSession "s" core) !! 1%positive = Some s' ∧
        session_name s' = "s" ∧ context s' = ∅ ∧ history s' = [].
Proof.
  intros core.
  destruct (closeSession_cleans_the_object core "s" 1%positive
              (addToHistory 3 "op" (VNum 1) (new_WormSession "s")))
    as ((s' & Hs' & Hn & Hc & Hh) & _); [reflexivity | reflexivity |].
  by exists s'.
Defined.

Lemma cleanup_idempotent s : cleanup (cleanup s) = cleanup s.
Proof. done. Qed.

Lemma cleaned_heap_lookup (entries : list (string * loc)) (heap0 : gmap loc WormSession) l :
  foldr (λ entry h, alter cleanup entry.2 h) heap0 entries !! l
  = if bool_decide (l ∈ entries.*2) then cleanup <$> heap0 !! l else heap0 !! l.
Proof.
  induction entries as [|[n l0] entries IH]; [done |].
  rewrite fmap_cons. simpl.
  rewrite lookup_alter. destruct (decide (l0 = l)) as [->|Hne].
  - rewrite IH. rewrite (bool_decide_eq_true_2 (l ∈ l :: entries.*2))
      by (apply elem_of_cons; by left).
    case_bool_decide; [| done].
    destruct (heap0 !! l); simpl; [by rewrite cleanup_idempotent | done].
  - rewrite IH. case_bool_decide as Hin.
    + rewrite bool_decide_eq_true_2; [done |]. apply elem_of_cons. by right.
    + rewrite bool_decide_eq_false_2; [done |].
      intros [?|?]%elem_of_cons; [congruence | done].
Qed.

Lemma registered_in_entries core l :
  l ∈ (map_to_list (sessions core)).*2 ↔ registered core l.
Proof.
  unfold registered. rewrite list_elem_of_fmap. split.
  - intros ([n l'] & -> & Hin). exists n. by apply elem_of_map_to_list.
  - intros [n Hn]. exists (n, l). split; [done |]. by apply elem_of_map_to_list.
Qed.

(** [shutdown] empties the registry and blanks exactly the session objects
    that were registered.  A session displaced earlier by a [createSession]
    under its own name is not among them: it goes through [shutdown] with
    its context and history intact. *)
Theorem shutdown_cleans_registered_only :
  (∀ core l,
     sessions (shutdown core) = ∅ ∧
     (registered core l → heap (shutdown core) !! l = cleanup <$> heap core !! l) ∧
     (¬ registered core l → heap (shutdown core) !! l = heap core !! l)) ∧
  (∀ core name old,
     reachable core →
     sessions core !! default "default" name = Some old →
     heap (shutdown (createSession name core).2) !! old = heap core !! old).
Proof.
  assert (∀ core l,
     (registered core l → heap (shutdown core) !! l = cleanup <$> heap core !! l) ∧
     (¬ registered core l → heap (shutdown core) !! l = heap core !! l)) as Hshut.
  { intros core l. unfold shutdown. simpl. rewrite cleaned_heap_lookup. split.
    - intros Hreg. by rewrite bool_decide_eq_true_2 by by apply registered_in_entries.
    - intros Hreg. rewrite bool_decide_eq_false_2; [done |].
      by rewrite registered_in_entries. }
  split.
  - intros core l. split; [done | apply Hshut].
  - intros core name old Hreach Hold.
    destruct (reachable_consistent _ Hreach _ _ Hold) as (s & Hs & Hn).
    assert (fresh (dom (heap core)) ≠ old) as Hfresh.
    { intros <-. apply (is_fresh (dom (heap core))). apply elem_of_dom. eauto. }
    rewrite (proj2 (Hshut _ old)).
    + simpl. by rewrite lookup_insert_ne.
    + intros [k Hk]. simpl in Hk.
      destruct (decide (default "default" name = k)) as [<-|Hne].
      * rewrite lookup_insert_eq in Hk. congruence.
      * rewrite lookup_insert_ne in Hk by done.
        destruct (reachable_consistent _ Hreach _ _ Hk) as (s' & Hs' & Hn').
        congruence.
Qed.

Lemma shutdown_cleans_registered_only_witness :
  let core := on_session 1%positive 7 (CallAddToHistory "op" (VNum 1))
                (createSession (Some "s") new_WormCore).2 in
  reachable core ∧
  sessions core !! "s" = Some 1%positive ∧
  heap (shutdown (createSession (Some "s") core).2) !! 1%positive = heap core !! 1%positive.
Proof.
  intros core.
  assert (reachable core) as Hreach.
  { apply (reachable_call 7 (OnSession 1%positive (CallAddToHistory "op" (VNum 1)))).
    apply (reachable_call 0 (CreateSession (Some "s"))). constructor. }
  split; [exact Hreach |]. split; [reflexivity |].
  apply (proj2 shutdown_cleans_registered_only core (Some "s") 1%positive Hreach).
  reflexivity.
Defined.

(* ===================================================================== *)
(** * Adding a directory *)
(* ===================================================================== *)

Lemma fs_tree_nested_ind (P : fs_tree → Prop) :
  (∀ content, P (FsFile content)) →
  (∀ items, Forall (λ entry, P entry.2) items → P (FsDir items)) →
  ∀ node, P node.
Proof.
  intros Hfile Hdir. fix IH 1. intros [content | items].
  - apply Hfile.
  - apply Hdir. induction items as [|[item sub] items IHitems]; constructor.
    + apply IH.
    + exact IHitems.
Qed.

Lemma add_node_walked pm node : ∀ target m,
  add_node pm target node m
  = foldl (λ m entry, <[entry.1 := entry.2]> m) m (walked_files pm target node).
Proof.
  induction node as [content | items IH] using fs_tree_nested_ind; intros target m.
  - done.
  - simpl. revert m. induction IH as [|[item sub] items Hsub _ IHitems]; intros m.
    + done.
    + simpl in Hsub. rewrite foldl_app, <- Hsub. apply IHitems.
Qed.

Lemma walked_files_below pm target items item sub :
  (item, sub) ∈ items →
  walked_files pm (slashes (path_join pm target item)) sub
    ⊆ walked_files pm target (FsDir items).
Proof.
  induction items as [|[item' sub'] items IH]; intros Hin.
  - by apply elem_of_nil in Hin.
  - simpl. apply elem_of_cons in Hin as [Heq | Hin].
    + injection Heq as <- <-. intros x Hx. apply elem_of_app. by left.
    + intros x Hx. apply elem_of_app. right. by apply (IH Hin).
Qed.

Lemma has_file_walked pm node names content :
  has_file node names content →
  ∀ target, (target_of pm target names, content) ∈ walked_files pm target node.
Proof.
  induction 1 as [content | items item sub names content Hin Hsub IH]; intros target.
  - simpl. apply list_elem_of_singleton. done.
  - apply (walked_files_below pm target items item sub Hin). apply IH.
Qed.

Lemma stored_entries_dom (entries : list (string * list byte)) : ∀ m : gmap string (list byte),
  dom (foldl (λ m entry, <[entry.1 := entry.2]> m) m entries)
  = dom m ∪ list_to_set entries.*1.
Proof.
  induction entries as [|[p c] entries IH]; intros m; simpl.
  - by rewrite (right_id_L ∅ (∪)).
  - rewrite IH, dom_insert_L. apply set_eq. intros x.
    rewrite !elem_of_union, elem_of_singleton. tauto.
Qed.

Lemma stored_entries_other (entries : list (string * list byte)) p :
  ∀ m : gmap string (list byte),
  p ∉ entries.*1 →
  foldl (λ m entry, <[entry.1 := entry.2]> m) m entries !! p = m !! p.
Proof.
  induction entries as [|[q c] entries IH]; intros m Hp; simpl; [done |].
  rewrite fmap_cons in Hp. apply not_elem_of_cons in Hp as [Hne Hp].
  rewrite IH by done. by rewrite lookup_insert_ne.
Qed.

Lemma stored_entries_lookup (entries : list (string * list byte)) p c :
  ∀ m : gmap string (list byte),
  NoDup entries.*1 → (p, c) ∈ entries →
  foldl (λ m entry, <[entry.1 := entry.2]> m) m entries !! p = Some c.
Proof.
  induction entries as [|[q d] entries IH]; intros m Hnodup Hin; simpl.
  - by apply elem_of_nil in Hin.
  - rewrite fmap_cons in Hnodup. apply NoDup_cons in Hnodup as [Hfresh Hnodup].
    apply elem_of_cons in Hin as [Heq | Hin].
    + injection Heq as <- <-. rewrite stored_entries_other by done.
      apply lookup_insert_eq.
    + by apply IH.
Qed.

(** [addDirectory] stores the regular files of the directory tree and
    nothing else: the paths of the store afterwards are those it had plus the
    keys of the files met, every file below the directory is present under
    the key joined from its path (with its content when no two files share a
    key), and the other entries are untouched.  When the source is not a
    directory the call throws, with the store loaded and unchanged. *)
Theorem addDirectory_stores_the_files (rt : NodeRuntime) (h : Host) (pm : PathModule)
    (st : container) (dirPath targetDir : string) (dir : option fs_tree) :
  let st0 := (load rt h st).2 in
  (∀ items, dir = Some (FsDir items) →
     let files := walked_files pm targetDir (FsDir items) in
     ∃ st1,
       addDirectory rt h pm dirPath dir targetDir st = (Returned tt, st1) ∧
       dom (memoryFs st1) = dom (memoryFs st0) ∪ list_to_set files.*1 ∧
       (∀ names content, has_file (FsDir items) names content →
          is_Some (memoryFs st1 !! target_of pm targetDir names) ∧
          (NoDup files.*1 →
             memoryFs st1 !! target_of pm targetDir names = Some content)) ∧
       (∀ p, p ∉ files.*1 → memoryFs st1 !! p = memoryFs st0 !! p)) ∧
  ((dir = None ∨ ∃ content, dir = Some (FsFile content)) →
     ∃ message, addDirectory rt h pm dirPath dir targetDir st = (Thrown message, st0)).
Proof.
  intros st0. unfold addDirectory, bind. rewrite (load_pair rt h st). fold st0. split.
  - intros items ->. set (files := walked_files pm targetDir (FsDir items)).
    eexists. split; [reflexivity |]. cbn [memoryFs with_memoryFs].
    unfold addRecursive. rewrite add_node_walked. fold files.
    split; [apply stored_entries_dom |]. split.
    + intros names content Hfile.
      pose proof (has_file_walked pm _ _ _ Hfile targetDir) as Hin. fold files in Hin.
      split.
      * apply elem_of_dom. rewrite stored_entries_dom. apply elem_of_union. right.
        apply elem_of_list_to_set, list_elem_of_fmap. by eexists (_, _).
      * intros Hnodup. by apply stored_entries_lookup.
    + intros p Hp. by apply stored_entries_other.
  - intros [-> | [content ->]]; by eexists.
Qed.

Lemma addDirectory_stores_the_files_witness :
  let rt := sample_runtime JNull [] in
  let h := sample_host ∅ in
  let pm := {| path_basename := λ p, p;
               path_join := λ a b, if String.eqb a EmptyString then b else a +:+ "/" +:+ b |} in
  let st := new_container WormContainer h (Some "absent.worm") in
  let tree := [("docs", FsDir [("a.md", FsFile [x41]); ("empty", FsDir [])]);
               ("b.bin", FsFile [x00])] in
  ∃ st1,
    addDirectory rt h pm "src" (Some (FsDir tree)) EmptyString st = (Returned tt, st1) ∧
    memoryFs st1 !! "docs/a.md" = Some [x41] ∧
    memoryFs st1 !! "docs" = None.
Proof.
  intros rt h pm st tree.
  destruct (proj1 (addDirectory_stores_the_files rt h pm st "src" EmptyString
                     (Some (FsDir tree))) tree eq_refl)
    as (st1 & Hrun & _ & Hfiles & Hother).
  exists st1. split; [exact Hrun |]. split.
  - apply (Hfiles ["docs"; "a.md"] [x41]).
    + apply (has_file_below _ "docs" (FsDir [("a.md", FsFile [x41]); ("empty", FsDir [])]));
        [apply elem_of_cons; by left |].
      apply (has_file_below _ "a.md" (FsFile [x41])); [apply elem_of_cons; by left |].
      constructor.
    + vm_compute. repeat constructor; intros Hin;
        repeat (apply elem_of_cons in Hin as [Hin|Hin]; [discriminate Hin |]);
        by apply elem_of_nil in Hin.
  - rewrite Hother; [reflexivity |]. vm_compute. intros Hin.
    repeat (apply elem_of_cons in Hin as [Hin|Hin]; [discriminate Hin |]).
    by apply elem_of_nil in Hin.
Defined.

(* ===================================================================== *)
(** * Further properties of the facades *)
(* ===================================================================== *)

Lemma new_CppLibrary_unbound ffi path functions :
  (ffi = None ∨ ∃ Library err, ffi = Some Library ∧ Library path functions = Thrown err) →
  new_CppLibrary ffi path functions
    = {| libraryPath := path; ffiLib := None; library_functions := ∅ |}.
Proof.
  unfold new_CppLibrary. intros [-> | (Library & err & -> & ->)]; done.
Qed.

(** When ffi-napi is missing, or the library fails to load, the library has
    no native binding, and it stays so: every function it hands out, new or
    cached, carries the requested name and is a placeholder, whose call
    returns [C++ <name> result] without throwing and without touching the
    session. *)
Theorem unbound_library_gives_placeholders (ffi : Ffi) (path : string)
    (functions : list (string * string)) :
  (ffi = None ∨ ∃ Library err, ffi = Some Library ∧ Library path functions = Thrown err) →
  placeholder_library (new_CppLibrary ffi path functions) ∧
  ∀ lib functionName signature,
    placeholder_library lib →
    let func := (CppLibrary_function lib functionName signature).1 in
    let lib' := (CppLibrary_function lib functionName signature).2 in
    cpp_name func = functionName ∧ nativeFunc func = None ∧
    placeholder_library lib' ∧
    library_functions lib' !! functionName = Some func ∧
    ∀ args now session,
      CppFunction_call func args now session
        = (Returned (VStr ("C++ " +:+ functionName +:+ " result")), session).
Proof.
  intros Hffi. split.
  - rewrite new_CppLibrary_unbound by done. split; [done |].
    intros name func Hin. simpl in Hin. by rewrite lookup_empty in Hin.
  - intros lib functionName signature [Hnone Hall]. unfold CppLibrary_function.
    destruct (library_functions lib !! functionName) as [func|] eqn:Hcached; simpl.
    + destruct (Hall functionName func Hcached) as [Hname Hplace].
      split; [done |]. split; [done |]. split; [done |]. split; [done |].
      intros args now session. unfold CppFunction_call. by rewrite Hplace, Hname.
    + rewrite Hnone. split; [done |]. split; [done |]. split; [| split].
      * split; [done |]. simpl. intros name func Hin.
        destruct (decide (functionName = name)) as [<-|Hne].
        -- rewrite lookup_insert_eq in Hin. by injection Hin as <-.
        -- rewrite lookup_insert_ne in Hin by done. by apply Hall.
      * apply lookup_insert_eq.
      * done.
Qed.

Lemma unbound_library_gives_placeholders_witness :
  let lib := new_CppLibrary None "test.so" [] in
  let func := (CppLibrary_function lib "testFunc" (Some "double")).1 in
  cpp_name func = "testFunc" ∧
  CppFunction_call func [VNum 2] 0 (new_WormSession "cpp_test")
    = (Returned (VStr "C++ testFunc result"), new_WormSession "cpp_test").
Proof.
  intros lib func.
  destruct (unbound_library_gives_placeholders None "test.so" [] (or_introl eq_refl))
    as [Hlib Hfunc].
  destruct (Hfunc lib "testFunc" (Some "double") Hlib) as (Hname & _ & _ & _ & Hcall).
  split; [exact Hname |]. apply Hcall.
Defined.

(** The libraries of a C++ context are cached under the base name of their
    path: a second request whose path has the same base name gets the
    library of the first request, whatever its directory and its function
    table, and changes nothing. *)
Theorem library_cache_is_keyed_by_basename (ffi : Ffi) (pm : PathModule)
    (loaded : gmap string CppLibrary) (path1 path2 : string)
    (functions1 functions2 : list (string * string)) :
  path_basename pm path1 = path_basename pm path2 →
  let first := CppContext_library ffi pm loaded path1 functions1 in
  CppContext_library ffi pm first.2 path2 functions2 = (first.1, first.2) ∧
  (loaded !! path_basename pm path1 = None → libraryPath first.1 = path1).
Proof.
  intros Hkey. unfold CppContext_library. rewrite <- Hkey.
  destruct (loaded !! path_basename pm path1) as [lib|] eqn:Hloaded; simpl.
  - by rewrite Hloaded.
  - rewrite lookup_insert_eq. split; [done |]. intros _.
    unfold new_CppLibrary. destruct ffi as [Library|]; [| done].
    by destruct (Library path1 functions1).
Qed.

Lemma library_cache_is_keyed_by_basename_witness :
  let pm := {| path_basename := λ p, if String.prefix "a/" p || String.prefix "b/" p
                                     then substring 2 (String.length p - 2) p else p;
               path_join := λ a b, a +:+ "/" +:+ b |} in
  let first := CppContext_library None pm ∅ "a/math.so" [] in
  path_basename pm "a/math.so" = path_basename pm "b/math.so" ∧
  libraryPath (CppContext_library None pm first.2 "b/math.so" [("sqrt", "double")]).1
    = "a/math.so".
Proof.
  intros pm first. split; [reflexivity |]. unfold first.
  rewrite (proj1 (library_cache_is_keyed_by_basename None pm ∅ "a/math.so" "b/math.so"
                    [] [("sqrt", "double")] eq_refl)).
  reflexivity.
Defined.

Lemma run_facade_call_history tc now c session :
  match run_facade_call tc now c session with
  | (Returned value, session') =>
      if is_placeholder c then session' = session
      else ∃ label, session' = addToHistory now label value session
  | (Thrown _, session') => session' = session
  end.
Proof.
  destruct c as [name func args | f args | f args | moduleName functionName args]; simpl.
  - unfold JsFunction_call. destruct (func args); [by eexists | done].
  - unfold CppFunction_call. destruct (nativeFunc f) as [native|]; [| done].
    destruct (native args); [by eexists | done].
  - unfold PythonFunction_call, PythonContext_execute.
    destruct (tool_python tc) as [runString|]; [| by eexists].
    destruct (runString _); [by eexists | done].
  - unfold GoFunction_call. destruct (tool_go tc _); [by eexists | done].
Qed.

(** Through the four facades, a call that throws leaves the session as it
    was, and a call that returns appends one record holding the value
    returned, except a placeholder C++ function, which returns and records
    nothing.  Over a sequence of calls the history keeps what it had and
    grows by the number of such returns. *)
Theorem facade_calls_record_returns (tc : Toolchains) (clock : nat → Z) :
  (∀ now c session,
     match run_facade_call tc now c session with
     | (Returned value, session') =>
         if is_placeholder c then session' = session
         else ∃ label, session' = addToHistory now label value session
     | (Thrown _, session') => session' = session
     end) ∧
  (∀ cs i session,
     let n := (run_facade_calls tc clock i cs session).1 in
     let session' := (run_facade_calls tc clock i cs session).2 in
     history session `prefix_of` history session' ∧
     length (history session') = (length (history session) + n)%nat ∧
     context session' = context session ∧
     (n ≤ length cs)%nat).
Proof.
  split; [apply run_facade_call_history |].
  induction cs as [|c cs IH]; intros i session; simpl.
  - split; [done |]. split; [lia | done].
  - pose proof (run_facade_call_history tc (clock i) c session) as Hcall.
    destruct (run_facade_call tc (clock i) c session) as [r session1].
    specialize (IH (S i) session1). simpl in IH.
    destruct (run_facade_calls tc clock (S i) cs session1) as [n session2]. simpl in *.
    destruct IH as (Hprefix & Hlength & Hcontext & Hbound).
    destruct r as [value | message].
    + destruct (is_placeholder c).
      * subst session1. split; [done |]. split; [done |]. split; [done | lia].
      * destruct Hcall as [label ->]. simpl in *. split; [| split; [| split]].
        -- etrans; [| exact Hprefix]. by apply prefix_app_r.
        -- rewrite Hlength, length_app. simpl. lia.
        -- done.
        -- lia.
    + subst session1. split; [done |]. split; [done |]. split; [done | lia].
Qed.

Lemma sum_of_numbers (zs : list Z) : ∀ a,
  fold_left js_add (map VNum zs) (VNum a) = VNum (a + foldr Z.add 0 zs).
Proof.
  induction zs as [|z zs IH]; intros a; simpl.
  - f_equal. lia.
  - rewrite IH. f_equal. lia.
Qed.

(** [sum()] of an array of non-negative integers whose total a double holds
    exactly is their total; it is [0] for the empty array. *)
Theorem sum_of_integers (zs : list Z) :
  Forall (λ z, 0 ≤ z) zs →
  foldr Z.add 0 zs ≤ 2 ^ 53 →
  JsArray_sum (new_JsArray (VArr (map VNum zs))) = Returned (VNum (foldr Z.add 0 zs)).
Proof.
  intros _ _. unfold JsArray_sum, Array_reduce. simpl. by rewrite sum_of_numbers.
Qed.

Lemma sum_of_integers_witness :
  JsArray_sum (new_JsArray (VArr (map VNum [1; 2; 3; 4; 5]))) = Returned (VNum 15).
Proof.
  apply (sum_of_integers [1; 2; 3; 4; 5]); [repeat constructor; lia | vm_compute; discriminate].
Defined.

Lemma add_to_NaN (zs : list Z) : fold_left js_add (map VNum zs) VNaN = VNaN.
Proof. induction zs as [|z zs IH]; simpl; [done | exact IH]. Qed.

(** [reduce] with addition and no initial value never sums: on every
    non-empty array of numbers it returns [NaN], on the empty array
    [undefined], and it throws on neither. *)
Theorem reduce_without_initial_value (zs : list Z) :
  JsArray_reduce js_add None (new_JsArray (VArr (map VNum zs)))
    = Returned (match zs with [] => VUndefined | _ :: _ => VNaN end).
Proof.
  unfold JsArray_reduce, Array_reduce. destruct zs as [|z zs]; simpl; [done |].
  by rewrite add_to_NaN.
Qed.

(** With python-shell missing, the numeric results of a numpy array are
    lost: [mean()] and [sum()] resolve to [NaN], whatever the data, [shape()]
    resolves to the placeholder text, and none of them records anything in
    the history of the session. *)
Theorem simulated_array_results (stringify : js_value → js_value)
    (numeric : string → js_value) (a : PythonArray) (session : WormSession) :
  PythonArray_mean stringify numeric None a session = (Returned VNaN, session) ∧
  PythonArray_sum stringify numeric None a session = (Returned VNaN, session) ∧
  PythonArray_shape stringify None a session
    = (Returned (VStr "Simulated Python result"), session).
Proof. done. Qed.

Lemma in_standardModules moduleName :
  moduleName ∈ standardModules ↔
  moduleName = "fmt" ∨ moduleName = "strings" ∨ moduleName = "math" ∨
  moduleName = "time" ∨ moduleName = "strconv".
Proof.
  unfold standardModules. rewrite !elem_of_cons, elem_of_nil. tauto.
Qed.

(** The import block of a generated Go program names [fmt] once, and the
    module of the called function exactly when that module is one of
    [fmt], [strings], [math], [time] and [strconv]: a function of any other
    module is called in a program that does not import it. *)
Theorem imports_of_generated_code (moduleName : string) :
  NoDup (import_lines moduleName) ∧
  ("    " +:+ quoted "fmt") ∈ import_lines moduleName ∧
  (("    " +:+ quoted moduleName) ∈ import_lines moduleName ↔
   moduleName ∈ standardModules).
Proof.
  unfold import_lines.
  destruct (decide (moduleName ∈ standardModules)) as [Hstd | Hother].
  - rewrite bool_decide_eq_true_2 by done.
    apply in_standardModules in Hstd as [-> | [-> | [-> | [-> | ->]]]]; simpl;
      (split; [repeat constructor; intros Hin;
                 repeat (apply elem_of_cons in Hin as [Hin|Hin]; [discriminate Hin |]);
                 by apply elem_of_nil in Hin |]);
      (split; [apply elem_of_cons; right; apply elem_of_cons; by left |]);
      (split; [intros _; apply in_standardModules; tauto |]); intros _;
      apply elem_of_cons; right; apply elem_of_cons; first [by left | right];
      apply elem_of_cons; by left.
  - rewrite bool_decide_eq_false_2 by done. simpl. split; [| split].
    + repeat constructor; intros Hin;
        repeat (apply elem_of_cons in Hin as [Hin|Hin]; [discriminate Hin |]);
        by apply elem_of_nil in Hin.
    + apply elem_of_cons; right; apply elem_of_cons; by left.
    + split; [| done]. intros Hin. exfalso.
      apply elem_of_cons in Hin as [Hin | Hin]; [discriminate Hin |].
      apply elem_of_cons in Hin as [Hin | Hin].
      * apply Hother, in_standardModules. left.
        unfold quoted in Hin. simpl in Hin. injection Hin as Hin.
        assert (∀ a b : string, a +:+ double_quote = b +:+ double_quote → a = b) as Hcancel.
        { induction a as [|c a IHa]; intros [|d b] Heq; simpl in Heq.
          - done.
          - injection Heq as <- Heq. destruct b; discriminate Heq.
          - injection Heq as -> Heq. destruct a; discriminate Heq.
          - injection Heq as -> Heq. f_equal. by apply IHa. }
        by apply (Hcancel moduleName "fmt").
      * apply elem_of_cons in Hin as [Hin | Hin]; [discriminate Hin |].
        by apply elem_of_nil in Hin.
Qed.

Lemma prefix_includes sub s : String.prefix sub s = true → includes sub s = true.
Proof. intros H. destruct s; cbn [includes]; by rewrite H. Qed.

Lemma includes_later sub c s : includes sub s = true → includes sub (String c s) = true.
Proof. intros H. cbn [includes]. rewrite H. apply orb_true_r. Qed.

Lemma prefix_cons_inv a sub s :
  String.prefix (String a sub) s = true →
  ∃ rest, s = String a rest ∧ String.prefix sub rest = true.
Proof.
  destruct s as [|b rest]; cbn [String.prefix]; [done |].
  destruct (ascii_dec a b) as [<-|]; [| done]. by exists rest.
Qed.

Lemma darwin_includes_win s : includes "darwin" s = true → includes "win" s = true.
Proof.
  induction s as [|c s IH]; [done |].
  intros H. cbn [includes] in H. apply orb_prop in H as [H | H].
  - apply prefix_cons_inv in H as (s1 & Heq & H). injection Heq as -> ->.
    apply prefix_cons_inv in H as (s2 & -> & H).
    apply prefix_cons_inv in H as (s3 & -> & H).
    apply prefix_cons_inv in H as (s4 & -> & H).
    apply prefix_cons_inv in H as (s5 & -> & H).
    apply prefix_cons_inv in H as (s6 & -> & H).
    do 3 apply includes_later. apply prefix_includes.
    apply String.prefix_correct. by destruct s6.
  - apply includes_later. apply IH.
    destruct s; [done | exact H].
Qed.

(** [detectPlatform] looks for [win] first: a binary whose name contains
    [darwin] is reported as [windows], whatever else the name contains and
    whatever the platform of the process; [linux] and [macos] are reported
    only for names without [win]. *)
Theorem detectPlatform_prefers_win (platform binaryName : string) :
  (includes "darwin" binaryName = true → detectPlatform platform binaryName = "windows") ∧
  (detectPlatform platform binaryName = "linux" → includes "win" binaryName = false) ∧
  (includes "win" binaryName = false → includes "linux" binaryName = true →
     detectPlatform platform binaryName = "linux").
Proof.
  unfold detectPlatform. split; [| split].
  - intros H. by rewrite (darwin_includes_win _ H).
  - destruct (includes "win" binaryName); [discriminate | done].
  - by intros -> ->.
Qed.

Lemma detectPlatform_prefers_win_witness :
  includes "darwin" "worm-darwin-x64" = true ∧
  detectPlatform "darwin" "worm-darwin-x64" = "windows".
Proof.
  split; [reflexivity |].
  apply (proj1 (detectPlatform_prefers_win "darwin" "worm-darwin-x64")). reflexivity.
Defined.

(* ===================================================================== *)
(** * Writes and removals leave the other paths alone *)
(* ===================================================================== *)

(** [write] and [remove] of a path change what [read] returns for that path
    only: for every other path, [read] after the call returns or throws
    exactly as [read] before it. *)
Theorem other_paths_are_untouched (rt : NodeRuntime) (h : Host) (st : container)
    (filePath other : string) (content : write_content) :
  other ≠ filePath →
  (read rt h other (write rt h filePath content st).2).1 = (read rt h other st).1 ∧
  (read rt h other (remove rt h filePath st).2).1 = (read rt h other st).1.
Proof.
  intros Hother.
  assert (isLoaded (load rt h st).2 = true) as Hloaded by apply load_snd_loaded.
  unfold write, remove, read, bind. rewrite (load_pair rt h st). simpl. split.
  - rewrite load_loaded by done. simpl. rewrite lookup_insert_ne by congruence.
    by destruct (memoryFs (load rt h st).2 !! other).
  - case_bool_decide; simpl.
    + rewrite load_loaded by done. simpl. rewrite lookup_delete_ne by congruence.
      by destruct (memoryFs (load rt h st).2 !! other).
    + rewrite load_loaded by done.
      by destruct (memoryFs (load rt h st).2 !! other).
Qed.

Lemma other_paths_are_untouched_witness :
  let rt := sample_runtime JNull [] in
  let h := sample_host ∅ in
  let st := {| class := WormContainer; containerPath := "c.worm";
               memoryFs := {[ "a" := [x41] ]}; isLoaded := true; isEmbedded := false |} in
  (read rt h "a" (write rt h "b" (ContentString "text") st).2).1 = Returned [x41] ∧
  (read rt h "a" (remove rt h "b" st).2).1 = Returned [x41].
Proof.
  intros rt h st.
  destruct (other_paths_are_untouched rt h st "b" "a" (ContentString "text")) as [Hw Hr];
    [discriminate |].
  rewrite Hw, Hr. split; reflexivity.
Defined.
